(** * ScopeGuard-AI: segmentation, rule engine and scoring

    A shallow embedding of [extractor.py], [nlp_rules.py] and
    [reporter.py], and the properties of the specification that concern
    them.

    Modelling conventions.
    - A Python [str] is a [string]; every [ascii] stands for the code point
      with the same number, so the texts covered are those over code points
      0..255.  The classes [\s], [\w], [\d], [str.strip], [str.lower] and
      case-insensitive matching are those of Python 3 on that range.
    - A [dict] is a [gmap] with string keys; where iteration order matters
      (the table [section_headers]) it is an association list.
    - A regular expression is a term of [regex]; [re_run] lists the ways a
      backtracking matcher can match at the start of a text, in the order the
      matcher tries them, so the first one is the match Python reports. *)

From Stdlib Require Import Ascii String NArith ZArith Lia.
From stdpp Require Import gmap strings list fin_maps.

Local Open Scope char_scope.
Local Open Scope string_scope.
Local Open Scope stdpp_scope.
Local Open Scope list_scope.

(** ** Characters *)

Module Char.

Definition code (c : ascii) : N := N_of_ascii c.

Definition between (lo hi : N) (c : ascii) : bool :=
  (lo <=? code c)%N && (code c <=? hi)%N.

(** [str.isspace] on one code point: the characters [str.strip] removes
    and [\s] matches. *)
Definition is_space (c : ascii) : bool :=
  between 9 13 c || between 28 32 c
  || (code c =? 133)%N || (code c =? 160)%N.

(** [\d]: the decimal digits. *)
Definition is_digit (c : ascii) : bool := between 48 57 c.

(** [\w]: alphanumeric code points and the underscore. *)
Definition is_word (c : ascii) : bool :=
  is_digit c || between 65 90 c || between 97 122 c || (code c =? 95)%N
  || (code c =? 170)%N || between 178 179 c || (code c =? 181)%N
  || between 185 186 c || between 188 190 c
  || between 192 214 c || between 216 246 c || between 248 255 c.

(** [ \t] *)
Definition is_blank (c : ascii) : bool :=
  (code c =? 32)%N || (code c =? 9)%N.

(** [str.lower] on one code point. *)
Definition lower (c : ascii) : ascii :=
  if between 65 90 c || between 192 214 c || between 216 222 c
  then ascii_of_N (code c + 32)
  else c.

(** [str.upper] on an unaccented letter. *)
Definition upper (c : ascii) : ascii :=
  if between 97 122 c then ascii_of_N (code c - 32) else c.

Definition is_alpha (c : ascii) : bool :=
  between 65 90 c || between 97 122 c.

Definition eqb_ci (ignorecase : bool) (p x : ascii) : bool :=
  if ignorecase then Ascii.eqb (lower p) (lower x) else Ascii.eqb p x.

End Char.

Global Arguments Char.is_space : simpl never.
Global Arguments Char.is_digit : simpl never.
Global Arguments Char.is_word : simpl never.
Global Arguments Char.is_blank : simpl never.
Global Arguments Char.is_alpha : simpl never.
Global Arguments Char.lower : simpl never.
Global Arguments Char.upper : simpl never.

(** ** Strings *)

Module Str.

Definition nl : string := String "010" "".

Definition is_empty (s : string) : bool :=
  match s with "" => true | String _ _ => false end.

(** Truth value of a [str]: the empty string is false. *)
Definition truthy (s : string) : bool := negb (is_empty s).

Fixpoint map (f : ascii -> ascii) (s : string) : string :=
  match s with
  | "" => ""
  | String c s' => String (f c) (map f s')
  end.

Fixpoint filter (f : ascii -> bool) (s : string) : string :=
  match s with
  | "" => ""
  | String c s' => if f c then String c (filter f s') else filter f s'
  end.

Fixpoint forallb (f : ascii -> bool) (s : string) : bool :=
  match s with
  | "" => true
  | String c s' => f c && forallb f s'
  end.

Definition lower : string -> string := map Char.lower.

Fixpoint drop (n : nat) (s : string) : string :=
  match n, s with
  | O, _ => s
  | S n', String _ s' => drop n' s'
  | S _, "" => ""
  end.

Fixpoint take (n : nat) (s : string) : string :=
  match n, s with
  | S n', String c s' => String c (take n' s')
  | _, _ => ""
  end.

(** [s[i:j]] for [i <= j]. *)
Definition slice (i j : nat) (s : string) : string := take (j - i) (drop i s).

Fixpoint lstrip (s : string) : string :=
  match s with
  | "" => ""
  | String c s' => if Char.is_space c then lstrip s' else s
  end.

Fixpoint rstrip (s : string) : string :=
  match s with
  | "" => ""
  | String c s' =>
      let r := rstrip s' in
      if is_empty r && Char.is_space c then "" else String c r
  end.

(** [s.strip()] *)
Definition strip (s : string) : string := rstrip (lstrip s).

(** [s.split('\n')] *)
Fixpoint split_nl (s : string) : list string :=
  match s with
  | "" => [""]
  | String c s' =>
      if Ascii.eqb c "010" then "" :: split_nl s'
      else match split_nl s' with
           | l :: ls => String c l :: ls
           | [] => [String c ""]
           end
  end.

(** [s.split('\n\n')]: cut at every non-overlapping occurrence of two
    line feeds, scanning from the left. *)
Fixpoint split_nlnl (s : string) : list string :=
  match s with
  | "" => [""]
  | String c s' =>
      let cons_char :=
        match split_nlnl s' with
        | l :: ls => String c l :: ls
        | [] => [String c ""]
        end in
      match s' with
      | String c' s'' =>
          if Ascii.eqb c "010" && Ascii.eqb c' "010"
          then "" :: split_nlnl s''
          else cons_char
      | "" => cons_char
      end
  end.

(** [sep.join(l)] *)
Fixpoint join (sep : string) (l : list string) : string :=
  match l with
  | [] => ""
  | [x] => x
  | x :: rest => x +:+ sep +:+ join sep rest
  end.

Fixpoint is_prefix (p s : string) : bool :=
  match p, s with
  | "", _ => true
  | String a p', String b s' => Ascii.eqb a b && is_prefix p' s'
  | String _ _, "" => false
  end.

(** [sub in s] *)
Fixpoint contains (sub s : string) : bool :=
  is_prefix sub s
  || match s with
     | "" => false
     | String _ s' => contains sub s'
     end.

(** [s.replace(a, b)] for one-character [a] and [b]. *)
Definition replace_char (a b : ascii) : string -> string :=
  map (fun c => if Ascii.eqb c a then b else c).

(** [s.title()] on unaccented text: a letter is upper-cased when the
    character before it is not a letter, lower-cased otherwise. *)
Fixpoint title_go (prev_cased : bool) (s : string) : string :=
  match s with
  | "" => ""
  | String c s' =>
      if Char.is_alpha c
      then String (if prev_cased then Char.lower c else Char.upper c)
                  (title_go true s')
      else String c (title_go false s')
  end.
Definition title : string -> string := title_go false.

End Str.

(** ** Regular expressions *)

Module Re.

(** Character classes of the patterns in the source. *)
Inductive cls := Digit | Space | Word | Blank | Special.

Definition cls_mem (k : cls) (c : ascii) : bool :=
  match k with
  | Digit => Char.is_digit c
  | Space => Char.is_space c
  | Word => Char.is_word c
  | Blank => Char.is_blank c
  | Special =>
      (* [^\w\s\.\,\;\:\!\?\-\(\)\[\]\{\}\n] *)
      negb (Char.is_word c || Char.is_space c
            || Str.contains (String c "") ".,;:!?-()[]{}")
  end.

(** The fragment of the pattern language the source uses: literals,
    classes, sequencing, [r?], [k+] and [k{n}] on a class [k], and one
    capturing group. *)
Inductive regex :=
| Eps
| Chr (c : ascii)
| Cls (k : cls)
| Cat (r1 r2 : regex)
| Opt (r : regex)
| Plus (k : cls)
| Rep (n : nat) (k : cls)
| Grp (r : regex).

Definition seq (rs : list regex) : regex := foldr Cat Eps rs.

(** [re.compile] on that fragment.  [cur] holds the atoms read so far in
    the current sequence, last first; [outer] holds those read before an
    open parenthesis. *)
Definition quantify (q : regex -> option regex) (cur : list regex)
  : option (list regex) :=
  match cur with
  | a :: cur' => r ← q a; Some (r :: cur')
  | [] => None
  end.

Definition digit_val (c : ascii) : option nat :=
  if Char.is_digit c then Some (N.to_nat (Char.code c - 48)) else None.

Fixpoint parse (s : string) (cur : list regex) (outer : option (list regex))
  : option regex :=
  match s with
  | "" => match outer with
          | None => Some (seq (rev cur))
          | Some _ => None
          end
  | String "\" (String c s') =>
      let atom :=
        if Ascii.eqb c "d" then Some (Cls Digit)
        else if Ascii.eqb c "s" then Some (Cls Space)
        else if Ascii.eqb c "w" then Some (Cls Word)
        else if Char.is_word c then None
        else Some (Chr c) in
      a ← atom; parse s' (a :: cur) outer
  | String "(" s' =>
      match outer with
      | None => parse s' [] (Some cur)
      | Some _ => None
      end
  | String ")" s' =>
      match outer with
      | Some o => parse s' (Grp (seq (rev cur)) :: o) None
      | None => None
      end
  | String "+" s' =>
      cur' ← quantify (fun a => match a with Cls k => Some (Plus k) | _ => None end) cur;
      parse s' cur' outer
  | String "?" s' =>
      cur' ← quantify (fun a => Some (Opt a)) cur;
      parse s' cur' outer
  | String "{" (String d (String "}" s')) =>
      n ← digit_val d;
      cur' ← quantify (fun a => match a with Cls k => Some (Rep n k) | _ => None end) cur;
      parse s' cur' outer
  | String c s' =>
      if Str.contains (String c "") ".*[]|^$\{}" then None
      else parse s' (Chr c :: cur) outer
  end.

Definition compile (pattern : string) : option regex := parse pattern [] None.

(** *** Matching *)

(** A matcher state: the text of group 1, once captured, and the text
    still to be read. *)
Definition state : Type := option string * string.

(** [k*], longest first. *)
Fixpoint star_cls (k : cls) (s : string) : list string :=
  match s with
  | "" => [s]
  | String c s' => (if cls_mem k c then star_cls k s' else []) ++ [s]
  end.

Definition plus_cls (k : cls) (s : string) : list string :=
  match s with
  | "" => []
  | String c s' => if cls_mem k c then star_cls k s' else []
  end.

Fixpoint rep_cls (n : nat) (k : cls) (s : string) : list string :=
  match n with
  | O => [s]
  | S n' =>
      match s with
      | "" => []
      | String c s' => if cls_mem k c then rep_cls n' k s' else []
      end
  end.

Definition consumed (s rest : string) : string :=
  Str.take (String.length s - String.length rest) s.

(** All the ways [r] matches at the start of the state's text, in the
    order a backtracking matcher finds them. *)
Fixpoint re_run (ignorecase : bool) (r : regex) (st : state) : list state :=
  match r with
  | Eps => [st]
  | Chr p =>
      match st.2 with
      | String x s' => if Char.eqb_ci ignorecase p x then [(st.1, s')] else []
      | "" => []
      end
  | Cls k =>
      match st.2 with
      | String x s' => if cls_mem k x then [(st.1, s')] else []
      | "" => []
      end
  | Cat r1 r2 => re_run ignorecase r1 st ≫= re_run ignorecase r2
  | Opt r' => re_run ignorecase r' st ++ [st]
  | Plus k => pair st.1 <$> plus_cls k st.2
  | Rep n k => pair st.1 <$> rep_cls n k st.2
  | Grp r' =>
      (fun st' : state => (Some (consumed st.2 st'.2), st'.2))
        <$> re_run ignorecase r' st
  end.

(** A match object: [start()], [end()], [group(0)], [group(1)]. *)
Record match_obj := Match {
  m_start : nat;
  m_end : nat;
  group0 : string;
  group1 : option string
}.

(** The match of [r] at offset [pos], where [s] is the text from [pos]. *)
Definition match_at (ignorecase : bool) (r : regex) (pos : nat) (s : string)
  : option match_obj :=
  match re_run ignorecase r (None, s) with
  | st :: _ =>
      let n := String.length s - String.length st.2 in
      Some (Match pos (pos + n) (Str.take n s) st.1)
  | [] => None
  end.

(** [re.match(r, s, flags)] *)
Definition re_match (ignorecase : bool) (r : regex) (s : string)
  : option match_obj := match_at ignorecase r 0 s.

(** [re.search(r, s, flags)]: the match at the leftmost offset that has
    one; the offsets run up to and including the end of the text. *)
Fixpoint search_from (ignorecase : bool) (r : regex) (pos : nat) (s : string)
  : option match_obj :=
  match match_at ignorecase r pos s with
  | Some m => Some m
  | None =>
      match s with
      | "" => None
      | String _ s' => search_from ignorecase r (S pos) s'
      end
  end.

Definition re_search (ignorecase : bool) (r : regex) (s : string)
  : option match_obj := search_from ignorecase r 0 s.

(** [re.sub(r, repl, s)] for an [r] that matches no empty text: [skip]
    counts the characters of the current match still to be passed over. *)
Fixpoint sub_go (r : regex) (repl : string) (skip : nat) (s : string) : string :=
  match s with
  | "" => ""
  | String c s' =>
      match skip with
      | S k => sub_go r repl k s'
      | O =>
          match re_match false r s with
          | Some m =>
              match m_end m with
              | S n => repl +:+ sub_go r repl n s'
              | O => String c (sub_go r repl 0 s')
              end
          | None => String c (sub_go r repl 0 s')
          end
      end
  end.

Definition re_sub (r : regex) (repl s : string) : string := sub_go r repl 0 s.

(** [re.search(pattern, s)] and [re.match(pattern, s)] on a pattern given
    as text.  A pattern outside the fragment gives no match; the patterns
    of the source all compile (lemma [tables_compile] below). *)
Definition search (ignorecase : bool) (pattern s : string) : option match_obj :=
  r ← compile pattern; re_search ignorecase r s.

Definition match_ (ignorecase : bool) (pattern s : string) : option match_obj :=
  r ← compile pattern; re_match ignorecase r s.

End Re.

(** ** extractor.py *)

(** Truth value of a variable that holds [None] or a [str]. *)
Definition truthy_opt (o : option string) : bool :=
  match o with
  | Some s => Str.truthy s
  | None => false
  end.

Definition common_headers : list string :=
  [ "page \d+ of \d+";
    "confidential";
    "draft";
    "version \d+\.\d+";
    String "169" " \d{4}";
    "proprietary" ].

Definition common_footers : list string :=
  [ "page \d+";
    "prepared by:";
    "approved by:";
    "date:";
    "revision:" ].

Definition _is_header_footer (line : string) : bool :=
  let line_lower := Str.lower line in
  existsb (fun pattern => bool_decide (is_Some (Re.search false pattern line_lower)))
          common_headers
  || existsb (fun pattern => bool_decide (is_Some (Re.search false pattern line_lower)))
             common_footers.

(** The loop of [clean_text] over the lines: the lines it appends to
    [cleaned_lines]. *)
Fixpoint cleaned_lines (lines : list string) : list string :=
  match lines with
  | [] => []
  | line :: rest =>
      let line := Str.strip line in
      if Str.is_empty line then cleaned_lines rest
      else if _is_header_footer line then cleaned_lines rest
      else line :: cleaned_lines rest
  end.

(** [re.sub(r'[ \t]+', ' ', _)] *)
Definition normalize_whitespace (s : string) : string :=
  Re.re_sub (Re.Plus Re.Blank) " " s.

(** [re.sub(r'[^\w\s\.\,\;\:\!\?\-\(\)\[\]\{\}\n]', '', _)] *)
Definition remove_special (s : string) : string :=
  Re.re_sub (Re.Cls Re.Special) "" s.

(** The text of [clean_text] after the lines are joined again and before
    the two substitutions. *)
Definition joined_lines (text : string) : string :=
  Str.join Str.nl (cleaned_lines (Str.split_nl text)).

Definition clean_text (text : string) : string :=
  if Str.is_empty text then ""
  else
    let cleaned_text := joined_lines text in
    let cleaned_text := normalize_whitespace cleaned_text in
    let cleaned_text := remove_special cleaned_text in
    Str.strip cleaned_text.

Definition extract_from_text (text : string) : string := clean_text text.

(** The nine section identifiers, in the order of the [sections] literal. *)
Definition section_names : list string :=
  [ "project_overview"; "scope"; "timeline"; "materials"; "costs";
    "payment_terms"; "deliverables"; "quality_standards"; "legal_clauses" ].

(** The [sections] literal of [extract_sections] and of the fallback. *)
Definition empty_sections : gmap string string :=
  <["project_overview" := ""]> (<["scope" := ""]> (<["timeline" := ""]>
  (<["materials" := ""]> (<["costs" := ""]> (<["payment_terms" := ""]>
  (<["deliverables" := ""]> (<["quality_standards" := ""]>
  (<["legal_clauses" := ""]> ∅)))))))).

Definition section_headers : list (string * list string) :=
  [ ("project_overview",
      ["project\s+overview"; "introduction"; "background"; "purpose";
       "project\s+description"]);
    ("scope",
      ["scope\s+of\s+work"; "scope"; "work\s+scope"; "project\s+scope";
       "statement\s+of\s+work"]);
    ("timeline",
      ["timeline"; "schedule"; "duration"; "deadline"; "milestone";
       "project\s+schedule"; "time\s+frame"]);
    ("materials",
      ["materials"; "equipment"; "supplies"; "resources";
       "material\s+requirements"]);
    ("costs",
      ["costs?"; "budget"; "pricing"; "estimate"; "financial";
       "cost\s+breakdown"; "budgetary"]);
    ("payment_terms",
      ["payment\s+terms?"; "payment"; "invoice"; "billing";
       "payment\s+schedule"]);
    ("deliverables",
      ["deliverables?"; "output"; "result"; "product"; "delivery"]);
    ("quality_standards",
      ["quality\s+standards?"; "quality"; "standard"; "specification";
       "requirement"; "quality\s+assurance"]);
    ("legal_clauses",
      ["legal\s+clauses?"; "legal"; "clause"; "liability"; "warranty";
       "indemnification"; "terms\s+and\s+conditions"]) ].

(** The inner loop over the patterns of one section: the first pattern
    that matches at the start of the line, with its match. *)
Fixpoint first_match (patterns : list string) (line : string)
  : option (string * Re.match_obj) :=
  match patterns with
  | [] => None
  | pattern :: rest =>
      match Re.match_ true pattern line with
      | Some m => Some (pattern, m)
      | None => first_match rest line
      end
  end.

(** The outer loop over [section_headers.items()]: [found_section] and
    [found_pattern], those of the first section, in the order of the
    table, that has a matching pattern.  The names of the table are not
    empty, so [if found_section] holds exactly when a pattern matched. *)
Fixpoint find_section (headers : list (string * list string)) (line : string)
  : option (string * string) :=
  match headers with
  | [] => None
  | (section_name, patterns) :: rest =>
      match first_match patterns line with
      | Some (pattern, _) => Some (section_name, pattern)
      | None => find_section rest line
      end
  end.

(** [section_headers[found_section]]; the key is always one of the table. *)
Fixpoint patterns_of (headers : list (string * list string)) (name : string)
  : list string :=
  match headers with
  | [] => []
  | (section_name, patterns) :: rest =>
      if String.eqb section_name name then patterns else patterns_of rest name
  end.

Record seg_state := SegState {
  sections : gmap string string;
  current_section : option string;
  current_content : list string
}.

Definition initial_state : seg_state := SegState empty_sections None [].

(** "Save previous section content" and "Save the last section":
    [if current_section and current_content: sections[current_section] = ...] *)
Definition save_section (st : seg_state) : gmap string string :=
  match current_section st with
  | Some name =>
      if Str.truthy name && negb (bool_decide (current_content st = []))
      then <[name := Str.strip (Str.join Str.nl (current_content st))]> (sections st)
      else sections st
  | None => sections st
  end.

(** The content a header line opens its section with: the text after the
    header on the same line, if any. *)
Definition header_content (found_section line : string) : list string :=
  match first_match (patterns_of section_headers found_section) line with
  | Some (_, header_match) =>
      let after_header := Str.strip (Str.drop (Re.m_end header_match) line) in
      if Str.truthy after_header then [after_header] else []
  | None => []
  end.

(** One iteration of the loop over the lines. *)
Definition step (st : seg_state) (line : string) : seg_state :=
  let line := Str.strip line in
  if Str.is_empty line then st
  else
    match find_section section_headers line with
    | Some (found_section, _) =>
        SegState (save_section st) (Some found_section)
                 (header_content found_section line)
    | None =>
        if truthy_opt (current_section st)
        then SegState (sections st) (current_section st)
                      (current_content st ++ [line])
        else st
    end.

(** The state after the loop, and [sections] after the last section is
    saved: [extract_sections] up to the test for the fallback. *)
Definition scan (lines : list string) : seg_state := foldl step initial_state lines.

Definition primary_sections (text : string) : gmap string string :=
  save_section (scan (Str.split_nl text)).

(** [any(sections.values())] *)
Definition any_value (m : gmap string string) : bool :=
  existsb Str.truthy (map_to_list m).*2.

(** The keyword sets of the [if]/[elif] chain of the fallback, in order. *)
Definition fallback_keywords : list (string * list string) :=
  [ ("project_overview", ["project overview"; "introduction"; "background"]);
    ("scope", ["scope of work"; "scope"; "work scope"]);
    ("timeline", ["timeline"; "schedule"; "duration"; "deadline"]);
    ("materials", ["materials"; "equipment"; "supplies"]);
    ("costs", ["cost"; "budget"; "pricing"; "estimate"]);
    ("payment_terms", ["payment"; "invoice"; "billing"]);
    ("deliverables", ["deliverable"; "output"; "result"]);
    ("quality_standards", ["quality"; "standard"; "specification"]);
    ("legal_clauses", ["legal"; "clause"; "liability"; "warranty"]) ].

(** The branch of the chain a paragraph takes. *)
Fixpoint classify (chain : list (string * list string)) (paragraph_lower : string)
  : option string :=
  match chain with
  | [] => None
  | (name, keywords) :: rest =>
      if existsb (fun keyword => Str.contains keyword paragraph_lower) keywords
      then Some name
      else classify rest paragraph_lower
  end.

(** The body of a branch:
    [if sections[k]: sections[k] += '\n\n' + paragraph else: sections[k] = paragraph] *)
Definition add_paragraph (secs : gmap string string) (name paragraph : string)
  : gmap string string :=
  if Str.truthy (secs !!! name)
  then <[name := (secs !!! name) +:+ Str.nl +:+ Str.nl +:+ paragraph]> secs
  else <[name := paragraph]> secs.

Definition fallback_step (secs : gmap string string) (paragraph : string)
  : gmap string string :=
  match classify fallback_keywords (Str.lower paragraph) with
  | Some name => add_paragraph secs name paragraph
  | None => secs
  end.

Definition _fallback_section_extraction (text : string) : gmap string string :=
  foldl fallback_step empty_sections (Str.split_nlnl text).

Definition extract_sections (text : string) : gmap string string :=
  let sections := primary_sections text in
  if any_value sections then sections
  else _fallback_section_extraction text.

(** ** nlp_rules.py *)

(** Values of the fields of an issue: a [str], or the list of two patterns
    of a contradiction. *)
Inductive val :=
| VStr (s : string)
| VList (l : list string).

Global Instance val_eq_dec : EqDecision val.
Proof. solve_decision. Defined.

Abbreviation issue := (gmap string val).

Definition dquote : string := String "034" "".

Definition CRITICAL_SECTIONS : list string :=
  [ "project_overview"; "scope"; "timeline"; "materials"; "costs";
    "payment_terms"; "deliverables"; "quality_standards"; "legal_clauses" ].

Definition AMBIGUOUS_TERMS : list string :=
  [ "as per standard"; "TBD"; "to be determined"; "as required";
    "if necessary"; "subject to change"; "etc\."; "or equivalent";
    "as needed"; "unless otherwise specified" ].

Definition CONTRADICTION_PATTERNS : list (string * string) :=
  [ ("completion in (\d+) months", "phases? spanning (\d+) months");
    ("start date:? (\w+ \d{4})", "completion date:? (\w+ \d{4})") ].

(** [section.replace("_", " ").title()] *)
Definition section_title (section : string) : string :=
  Str.title (Str.replace_char "_" " " section).

Definition missing_section_issue (section : string) : issue :=
  <["type" := VStr "missing_section"]> (
  <["section" := VStr section]> (
  <["severity" := VStr "Critical"]> (
  <["message" := VStr ("Missing critical section: " +:+ section_title section)]> (
  <["suggestion" := VStr ("Add a section for " +:+ section_title section +:+ ".")]> ∅)))).

(** [not sections.get(section)]: the key is absent or its text is empty. *)
Definition is_missing (sections : gmap string string) (section : string) : bool :=
  negb (truthy_opt (sections !! section)).

Fixpoint missing_loop (sections : gmap string string) (todo : list string)
                      (issues : list issue) : list issue :=
  match todo with
  | [] => issues
  | section :: rest =>
      missing_loop sections rest
        (if is_missing sections section
         then issues ++ [missing_section_issue section]
         else issues)
  end.

Definition check_missing_sections (sections : gmap string string) : list issue :=
  missing_loop sections CRITICAL_SECTIONS [].

Definition ambiguous_term_issue (term : string) : issue :=
  <["type" := VStr "ambiguous_term"]> (
  <["term" := VStr term]> (
  <["severity" := VStr "Warning"]> (
  <["message" := VStr ("Ambiguous term found: " +:+ dquote +:+ term +:+ dquote)]> (
  <["suggestion" := VStr "Replace with specific details."]> ∅)))).

Fixpoint ambiguous_loop (text : string) (todo : list string) (issues : list issue)
  : list issue :=
  match todo with
  | [] => issues
  | term :: rest =>
      ambiguous_loop text rest
        (if bool_decide (is_Some (Re.search true term text))
         then issues ++ [ambiguous_term_issue term]
         else issues)
  end.

Definition check_ambiguous_terms (text : string) : list issue :=
  ambiguous_loop text AMBIGUOUS_TERMS [].

Definition contradiction_issue (pattern1 pattern2 : string)
                               (match1 match2 : Re.match_obj) : issue :=
  <["type" := VStr "contradiction"]> (
  <["patterns" := VList [pattern1; pattern2]]> (
  <["severity" := VStr "Critical"]> (
  <["message" := VStr ("Potential contradiction: " +:+ dquote +:+ Re.group0 match1
                       +:+ dquote +:+ " vs. " +:+ dquote +:+ Re.group0 match2
                       +:+ dquote)]> (
  <["suggestion" := VStr "Clarify the timeline and ensure consistency."]> ∅)))).

(** The body of the loop of [check_contradictions] for one pair: the
    issues it appends. *)
Definition check_pair (text : string) (patterns : string * string) : list issue :=
  let '(pattern1, pattern2) := patterns in
  match Re.search true pattern1 text, Re.search true pattern2 text with
  | Some match1, Some match2 =>
      if bool_decide (Re.group1 match1 ≠ Re.group1 match2)
      then [contradiction_issue pattern1 pattern2 match1 match2]
      else []
  | _, _ => []
  end.

Fixpoint contradiction_loop (text : string) (todo : list (string * string))
                            (issues : list issue) : list issue :=
  match todo with
  | [] => issues
  | patterns :: rest =>
      contradiction_loop text rest (issues ++ check_pair text patterns)
  end.

Definition check_contradictions (text : string) : list issue :=
  contradiction_loop text CONTRADICTION_PATTERNS [].

Definition analyze_sow_nlp (full_text : string) (sections : gmap string string)
  : list issue :=
  check_missing_sections sections ++ check_ambiguous_terms full_text
  ++ check_contradictions full_text.

(** ** reporter.py *)

Definition default_weights : gmap string Z :=
  <["Critical" := 10%Z]> (<["Warning" := 5%Z]> (<["Info" := 1%Z]> ∅)).

(** [issue.get('severity', 'Info')] *)
Definition severity_of (i : issue) : val := default (VStr "Info") (i !! "severity").

(** [weights.get(sev, 1)]; a list cannot be looked up in a [dict]: the
    call raises [TypeError], here [None]. *)
Definition weight_of (weights : gmap string Z) (sev : val) : option Z :=
  match sev with
  | VStr s => Some (default 1%Z (weights !! s))
  | VList _ => None
  end.

Fixpoint score_loop (weights : gmap string Z) (issues : list issue) (score : Z)
  : option Z :=
  match issues with
  | [] => Some score
  | i :: rest =>
      w ← weight_of weights (severity_of i);
      score_loop weights rest (score + w)%Z
  end.

Definition assign_risk_score (issues : list issue) (weights : option (gmap string Z))
  : option Z :=
  let weights := default default_weights weights in
  score_loop weights issues 0%Z.

(** * Properties *)

(** ** Strings *)

Section string_facts.

Lemma str_app_cons (c : ascii) (s t : string) : String c s +:+ t = String c (s +:+ t).
Proof. done. Qed.

Lemma str_app_nil_l (s : string) : "" +:+ s = s.
Proof. done. Qed.

Lemma str_app_nil_r (s : string) : s +:+ "" = s.
Proof. induction s as [|c s IH]; [done|]. by rewrite str_app_cons, IH. Qed.

Lemma str_app_assoc (s t u : string) : (s +:+ t) +:+ u = s +:+ t +:+ u.
Proof. induction s as [|c s IH]; [done|]. rewrite !str_app_cons. by rewrite IH. Qed.

Lemma str_app_length (s t : string) :
  String.length (s +:+ t) = String.length s + String.length t.
Proof. induction s as [|c s IH]; [done|]. rewrite str_app_cons. simpl. by rewrite IH. Qed.

Lemma is_empty_true (s : string) : Str.is_empty s = true ↔ s = "".
Proof. by destruct s. Qed.

Lemma is_empty_false (s : string) : Str.is_empty s = false ↔ s ≠ "".
Proof. by destruct s. Qed.

Lemma truthy_true (s : string) : Str.truthy s = true ↔ s ≠ "".
Proof. by destruct s. Qed.

(** A text that does not start with white space. *)
Definition head_ok (s : string) : Prop :=
  match s with
  | "" => True
  | String c _ => Char.is_space c = false
  end.

Lemma lstrip_head_ok (s : string) : head_ok (Str.lstrip s).
Proof.
  induction s as [|c s IH]; [done|]. simpl.
  destruct (Char.is_space c) eqn:E; [done|]. exact E.
Qed.

Lemma lstrip_id (s : string) : head_ok s → Str.lstrip s = s.
Proof. destruct s as [|c s]; [done|]. simpl. by intros ->. Qed.

Lemma rstrip_head_ok (s : string) : head_ok s → head_ok (Str.rstrip s).
Proof.
  destruct s as [|c s]; [done|]. simpl. intros H.
  rewrite H, andb_false_r. exact H.
Qed.

Lemma rstrip_idemp (s : string) : Str.rstrip (Str.rstrip s) = Str.rstrip s.
Proof.
  induction s as [|c s IH]; [done|]. simpl.
  destruct (Str.is_empty (Str.rstrip s) && Char.is_space c) eqn:E; [done|].
  simpl. rewrite IH, E. done.
Qed.

Lemma strip_idemp (s : string) : Str.strip (Str.strip s) = Str.strip s.
Proof.
  unfold Str.strip.
  rewrite (lstrip_id (Str.rstrip _)).
  - apply rstrip_idemp.
  - apply rstrip_head_ok, lstrip_head_ok.
Qed.

(** A text that [strip] leaves as it is. *)
Definition stripped (s : string) : Prop := Str.strip s = s.

Lemma strip_stripped (s : string) : stripped (Str.strip s).
Proof. apply strip_idemp. Qed.

End string_facts.

(** ** The tables *)

Definition names_set : gset string := list_to_set section_names.

Lemma section_headers_names : section_headers.*1 = section_names.
Proof. reflexivity. Qed.

Lemma fallback_keywords_names : fallback_keywords.*1 = section_names.
Proof. reflexivity. Qed.

Lemma critical_sections_names : CRITICAL_SECTIONS = section_names.
Proof. reflexivity. Qed.

Lemma section_names_truthy (name : string) :
  name ∈ section_names → Str.truthy name = true.
Proof.
  unfold section_names. rewrite !elem_of_cons, elem_of_nil.
  intros H. repeat (destruct H as [->|H]; [reflexivity|]). done.
Qed.

Lemma elem_of_names_set (name : string) : name ∈ names_set ↔ name ∈ section_names.
Proof. unfold names_set. apply elem_of_list_to_set. Qed.

Lemma dom_empty_sections : dom empty_sections = names_set.
Proof.
  unfold empty_sections. rewrite !dom_insert_L, dom_empty_L. reflexivity.
Qed.

Lemma lookup_empty_sections (name : string) :
  name ∈ section_names → empty_sections !! name = Some "".
Proof.
  unfold section_names. rewrite !elem_of_cons, elem_of_nil.
  intros H. repeat (destruct H as [->|H]; [reflexivity|]). done.
Qed.

(** Every pattern of the source lies in the fragment [Re.regex]. *)
Lemma tables_compile :
  Forall (fun p => is_Some (Re.compile p))
    (common_headers ++ common_footers ++ mjoin section_headers.*2
     ++ AMBIGUOUS_TERMS ++ CONTRADICTION_PATTERNS.*1 ++ CONTRADICTION_PATTERNS.*2).
Proof. apply (bool_decide_unpack _). by vm_compute. Qed.

(** ** The segmentation loop *)

(** The section whose header a line of the input carries, if any: what the
    loop finds on the stripped line, blank lines being skipped. *)
Definition recognised (line : string) : option string :=
  let line := Str.strip line in
  if Str.is_empty line then None
  else fst <$> find_section section_headers line.

Section segmentation.

Implicit Types (st : seg_state) (line name : string) (lines : list string).

Lemma find_section_elem headers line name pattern :
  find_section headers line = Some (name, pattern) → name ∈ headers.*1.
Proof.
  induction headers as [|[n ps] hs IH]; simpl; [done|].
  destruct (first_match ps line) as [[p m]|].
  - intros [= -> ->]. apply elem_of_cons; by left.
  - intros H. apply elem_of_cons; right; auto.
Qed.

Lemma recognised_name line name :
  recognised line = Some name → name ∈ section_names.
Proof.
  unfold recognised. destruct (Str.is_empty _); [done|].
  destruct (find_section _ _) as [[n p]|] eqn:E; [|done].
  intros [= <-]. rewrite <- section_headers_names. by eapply find_section_elem.
Qed.

Lemma step_header st line name :
  recognised line = Some name →
  step st line =
    SegState (save_section st) (Some name) (header_content name (Str.strip line)).
Proof.
  unfold recognised, step. destruct (Str.is_empty _); [done|].
  destruct (find_section _ _) as [[n p]|]; [|done]. by intros [= ->].
Qed.

Lemma step_body st line :
  recognised line = None →
  step st line =
    if Str.truthy (Str.strip line) && truthy_opt (current_section st)
    then SegState (sections st) (current_section st)
                  (current_content st ++ [Str.strip line])
    else st.
Proof.
  unfold recognised, step, Str.truthy.
  destruct (Str.is_empty _); [done|].
  destruct (find_section _ _) as [[n p]|]; [done|]. done.
Qed.

Lemma step_body_sections st line :
  recognised line = None →
  sections (step st line) = sections st
  ∧ current_section (step st line) = current_section st.
Proof.
  intros H. rewrite (step_body _ _ H). by destruct (_ && _).
Qed.

(** Saving touches the open section only. *)
Lemma save_section_other st name :
  current_section st ≠ Some name → save_section st !! name = sections st !! name.
Proof.
  unfold save_section. destruct (current_section st) as [n|]; [|done].
  intros Hne. destruct (_ && _); [|done].
  apply lookup_insert_ne. congruence.
Qed.

Lemma save_section_empty st :
  current_content st = [] → save_section st = sections st.
Proof.
  unfold save_section. intros ->. destruct (current_section st); [|done].
  by rewrite andb_false_r.
Qed.

Lemma save_section_store st name :
  current_section st = Some name → name ∈ section_names →
  current_content st ≠ [] →
  save_section st =
    <[name := Str.strip (Str.join Str.nl (current_content st))]> (sections st).
Proof.
  unfold save_section. intros -> Hn Hc.
  rewrite (section_names_truthy _ Hn). simpl.
  rewrite bool_decide_eq_false_2; done.
Qed.

(** The keys never change. *)
Definition wf_state st : Prop :=
  dom (sections st) = names_set
  ∧ ∀ name, current_section st = Some name → name ∈ section_names.

Lemma wf_initial : wf_state initial_state.
Proof. split; [apply dom_empty_sections | done]. Qed.

Lemma save_section_dom st : wf_state st → dom (save_section st) = names_set.
Proof.
  intros [Hd Hc]. unfold save_section.
  destruct (current_section st) as [n|]; [|done].
  destruct (_ && _); [|done].
  rewrite dom_insert_L, Hd.
  specialize (Hc n eq_refl). apply elem_of_names_set in Hc.
  by apply subseteq_union_1_L, singleton_subseteq_l.
Qed.

Lemma step_wf st line : wf_state st → wf_state (step st line).
Proof.
  intros Hwf. destruct (recognised line) as [n|] eqn:E.
  - rewrite (step_header _ _ _ E). split; simpl.
    + by apply save_section_dom.
    + intros ? [= <-]. by eapply recognised_name.
  - destruct (step_body_sections st line E) as [Hs Hc].
    destruct Hwf as [Hd Hn]. split; [by rewrite Hs | by rewrite Hc].
Qed.

Lemma foldl_step_wf lines st : wf_state st → wf_state (foldl step st lines).
Proof.
  revert st. induction lines as [|l ls IH]; simpl; [done|].
  intros st H. apply IH. by apply step_wf.
Qed.

Lemma primary_sections_dom (text : string) : dom (primary_sections text) = names_set.
Proof. apply save_section_dom, foldl_step_wf, wf_initial. Qed.

(** A section no line opens keeps the text it has. *)
Lemma foldl_step_untouched lines st name :
  (∀ line, line ∈ lines → recognised line ≠ Some name) →
  current_section st ≠ Some name →
  let st' := foldl step st lines in
  sections st' !! name = sections st !! name ∧ current_section st' ≠ Some name.
Proof.
  revert st. induction lines as [|l ls IH]; simpl; [done|].
  intros st Hl Hc.
  assert (recognised l ≠ Some name) as Hr by (apply Hl, elem_of_cons; by left).
  assert (sections (step st l) !! name = sections st !! name
          ∧ current_section (step st l) ≠ Some name) as [Hs Hc'].
  { destruct (recognised l) as [n|] eqn:E.
    - rewrite (step_header _ _ _ E). simpl. split; [|congruence].
      by apply save_section_other.
    - destruct (step_body_sections st l E) as [-> ->]. done. }
  destruct (IH (step st l)) as [IH1 IH2]; [|done|].
  - intros line Hin. apply Hl, elem_of_cons. by right.
  - split; [by rewrite IH1 | done].
Qed.

End segmentation.

(** ** The fallback *)

Section fallback.

Implicit Types (secs : gmap string string) (name : string).

Lemma classify_elem chain paragraph name :
  classify chain paragraph = Some name → name ∈ chain.*1.
Proof.
  induction chain as [|[n ks] c IH]; simpl; [done|].
  destruct (existsb _ ks).
  - intros [= ->]. apply elem_of_cons; by left.
  - intros H. apply elem_of_cons; right; auto.
Qed.

Lemma add_paragraph_dom secs name paragraph :
  name ∈ dom secs → dom (add_paragraph secs name paragraph) = dom secs.
Proof.
  intros H. unfold add_paragraph. destruct (Str.truthy _);
    rewrite dom_insert_L; by apply subseteq_union_1_L, singleton_subseteq_l.
Qed.

Lemma add_paragraph_other secs name name' paragraph :
  name ≠ name' → add_paragraph secs name paragraph !! name' = secs !! name'.
Proof.
  intros H. unfold add_paragraph. destruct (Str.truthy _);
    by rewrite lookup_insert_ne.
Qed.

Lemma fallback_step_dom secs paragraph :
  dom secs = names_set → dom (fallback_step secs paragraph) = names_set.
Proof.
  intros Hd. unfold fallback_step.
  destruct (classify _ _) as [n|] eqn:E; [|done].
  rewrite add_paragraph_dom; [done|].
  rewrite Hd. apply elem_of_names_set. rewrite <- fallback_keywords_names.
  by eapply classify_elem.
Qed.

Lemma foldl_fallback_dom paragraphs secs :
  dom secs = names_set → dom (foldl fallback_step secs paragraphs) = names_set.
Proof.
  revert secs. induction paragraphs as [|p ps IH]; simpl; [done|].
  intros secs H. by apply IH, fallback_step_dom.
Qed.

Lemma fallback_dom (text : string) :
  dom (_fallback_section_extraction text) = names_set.
Proof. apply foldl_fallback_dom, dom_empty_sections. Qed.

Lemma foldl_fallback_untouched paragraphs secs name :
  (∀ p, p ∈ paragraphs → classify fallback_keywords (Str.lower p) ≠ Some name) →
  foldl fallback_step secs paragraphs !! name = secs !! name.
Proof.
  revert secs. induction paragraphs as [|p ps IH]; simpl; [done|].
  intros secs H. rewrite IH.
  - unfold fallback_step. destruct (classify _ _) as [n|] eqn:E; [|done].
    apply add_paragraph_other. intros ->.
    apply (H p); [|done]. apply elem_of_cons; by left.
  - intros q Hq. apply H, elem_of_cons. by right.
Qed.

End fallback.

(** C1.  For every text, [extract_sections], and the fallback taken on its
    own, return a mapping whose keys are exactly the nine section
    identifiers; a section that no line of the text opens (in the loop over
    the lines), or that no paragraph is filed under (in the fallback), is
    mapped to the empty string, not left out.  So is it in the result of
    [extract_sections] itself, on either path: when the loop gave some
    section a body and its result is returned, and when it gave none and
    the fallback's result is returned. *)
Theorem extract_sections_nine_keys (text : string) :
  dom (extract_sections text) = names_set
  ∧ dom (_fallback_section_extraction text) = names_set
  ∧ size (extract_sections text) = 9
  ∧ (∀ name, name ∈ section_names → is_Some (extract_sections text !! name))
  ∧ (∀ name, name ∈ section_names →
       (∀ line, line ∈ Str.split_nl text → recognised line ≠ Some name) →
       primary_sections text !! name = Some "")
  ∧ (∀ name, name ∈ section_names →
       (∀ p, p ∈ Str.split_nlnl text →
          classify fallback_keywords (Str.lower p) ≠ Some name) →
       _fallback_section_extraction text !! name = Some "")
  ∧ (∀ name, name ∈ section_names →
       any_value (primary_sections text) = true →
       (∀ line, line ∈ Str.split_nl text → recognised line ≠ Some name) →
       extract_sections text !! name = Some "")
  ∧ (∀ name, name ∈ section_names →
       any_value (primary_sections text) = false →
       (∀ p, p ∈ Str.split_nlnl text →
          classify fallback_keywords (Str.lower p) ≠ Some name) →
       extract_sections text !! name = Some "")
  ∧ (∀ name, name ∈ section_names →
       (∀ line, line ∈ Str.split_nl text → recognised line ≠ Some name) →
       (∀ p, p ∈ Str.split_nlnl text →
          classify fallback_keywords (Str.lower p) ≠ Some name) →
       extract_sections text !! name = Some "").
Proof.
  assert (dom (extract_sections text) = names_set) as Hdom.
  { unfold extract_sections. destruct (any_value _).
    - apply primary_sections_dom.
    - apply fallback_dom. }
  assert (∀ name, name ∈ section_names →
            (∀ line, line ∈ Str.split_nl text → recognised line ≠ Some name) →
            primary_sections text !! name = Some "") as Hprimary.
  { intros name Hn Hl. unfold primary_sections, scan.
    destruct (foldl_step_untouched (Str.split_nl text) initial_state name Hl)
      as [Hs Hc]; [done|].
    rewrite save_section_other; [|done].
    rewrite Hs. by apply lookup_empty_sections. }
  assert (∀ name, name ∈ section_names →
            (∀ p, p ∈ Str.split_nlnl text →
               classify fallback_keywords (Str.lower p) ≠ Some name) →
            _fallback_section_extraction text !! name = Some "") as Hfallback.
  { intros name Hn Hp. unfold _fallback_section_extraction.
    rewrite foldl_fallback_untouched; [|done]. by apply lookup_empty_sections. }
  split; [done|]. split; [apply fallback_dom|]. split; [|split]; [| |split_and!].
  - rewrite <- size_dom, Hdom. reflexivity.
  - intros name Hn. apply elem_of_dom. rewrite Hdom. by apply elem_of_names_set.
  - exact Hprimary.
  - exact Hfallback.
  - intros name Hn Hany Hl. unfold extract_sections. rewrite Hany. by apply Hprimary.
  - intros name Hn Hany Hp. unfold extract_sections. rewrite Hany. by apply Hfallback.
  - intros name Hn Hl Hp. unfold extract_sections.
    destruct (any_value _); [by apply Hprimary|by apply Hfallback].
Qed.

Lemma extract_sections_nine_keys_witness :
  let headed := "SCOPE" +:+ Str.nl +:+ "All civil works." in
  let plain := "The scope is wide." in
  primary_sections headed !! "timeline" = Some ""
  ∧ _fallback_section_extraction headed !! "timeline" = Some ""
  ∧ extract_sections headed !! "timeline" = Some ""
  ∧ extract_sections plain !! "timeline" = Some "".
Proof.
  intros headed plain.
  destruct (extract_sections_nine_keys headed) as (_ & _ & _ & _ & H5 & H6 & H7 & _).
  destruct (extract_sections_nine_keys plain) as (_ & _ & _ & _ & _ & _ & _ & H8 & _).
  assert ("timeline" ∈ section_names) as Hn by (vm_compute; do 2 right; left).
  split_and!.
  - apply (H5 "timeline" Hn). apply Forall_forall.
    apply (bool_decide_unpack _). by vm_compute.
  - apply (H6 "timeline" Hn). apply Forall_forall.
    apply (bool_decide_unpack _). by vm_compute.
  - apply (H7 "timeline" Hn); [reflexivity|]. apply Forall_forall.
    apply (bool_decide_unpack _). by vm_compute.
  - apply (H8 "timeline" Hn); [reflexivity|]. apply Forall_forall.
    apply (bool_decide_unpack _). by vm_compute.
Defined.

(** ** The missing-section check *)

Section missing_sections.

Implicit Types (secs : gmap string string) (section : string).

Lemma missing_section_issue_section section :
  missing_section_issue section !! "section" = Some (VStr section).
Proof.
  unfold missing_section_issue.
  rewrite lookup_insert_ne by done. by rewrite lookup_insert_eq.
Qed.

Lemma missing_section_issue_severity section :
  missing_section_issue section !! "severity" = Some (VStr "Critical")
  ∧ missing_section_issue section !! "type" = Some (VStr "missing_section").
Proof.
  unfold missing_section_issue. split.
  - rewrite !lookup_insert_ne by done. by rewrite lookup_insert_eq.
  - by rewrite lookup_insert_eq.
Qed.

Global Instance missing_section_issue_inj : Inj (=) (=) missing_section_issue.
Proof.
  intros s1 s2 H.
  assert (Some (VStr s1) = Some (VStr s2)) as [=]; [|done].
  by rewrite <- !missing_section_issue_section, H.
Qed.

Lemma is_missing_spec secs section :
  is_missing secs section = true
  ↔ secs !! section = None ∨ secs !! section = Some "".
Proof.
  unfold is_missing. destruct (secs !! section) as [[|c v]|]; simpl; naive_solver.
Qed.

Lemma missing_loop_filter secs todo issues :
  missing_loop secs todo issues =
    issues ++ (missing_section_issue <$> filter (fun s => is_missing secs s) todo).
Proof.
  revert issues. induction todo as [|s todo IH]; intros issues; simpl.
  - by rewrite app_nil_r.
  - rewrite IH, filter_cons. destruct (is_missing secs s) eqn:E.
    + rewrite decide_True by done. by rewrite <- app_assoc.
    + rewrite decide_False; [done|]. by intros [].
Qed.

Lemma check_missing_sections_filter secs :
  check_missing_sections secs =
    missing_section_issue <$> filter (fun s => is_missing secs s) CRITICAL_SECTIONS.
Proof. apply missing_loop_filter. Qed.

End missing_sections.

(** C10.  [check_missing_sections] is defined on every mapping (the model
    has no failing case: [dict.get] never raises).  For each of the nine
    critical identifiers it emits the Critical [missing_section] issue of
    that identifier exactly when the key is absent or maps to the empty
    string; an absent key gives the same list of issues as the same key
    mapped to the empty string; the issues come in the order of
    [CRITICAL_SECTIONS]. *)
Theorem check_missing_sections_absent_key (secs : gmap string string) :
  (∀ section, section ∈ CRITICAL_SECTIONS →
     (missing_section_issue section ∈ check_missing_sections secs
      ↔ secs !! section = None ∨ secs !! section = Some ""))
  ∧ (∀ section, check_missing_sections (delete section secs)
                = check_missing_sections (<[section := ""]> secs))
  ∧ (∀ i, i ∈ check_missing_sections secs →
       i !! "severity" = Some (VStr "Critical")
       ∧ i !! "type" = Some (VStr "missing_section"))
  ∧ (fun i : issue => i !! "section") <$> check_missing_sections secs
      `sublist_of` (fun s => Some (VStr s)) <$> CRITICAL_SECTIONS.
Proof.
  split; [|split; [|split]].
  - intros section Hin. rewrite check_missing_sections_filter.
    rewrite list_elem_of_fmap_inj by apply _.
    rewrite list_elem_of_filter, Is_true_true, is_missing_spec. naive_solver.
  - intros section. rewrite !check_missing_sections_filter. f_equal.
    apply list_filter_iff. intros s. rewrite !Is_true_true, !is_missing_spec.
    destruct (decide (section = s)) as [->|Hne].
    + rewrite lookup_delete_eq, lookup_insert_eq. naive_solver.
    + by rewrite lookup_delete_ne, lookup_insert_ne.
  - intros i. rewrite check_missing_sections_filter.
    intros (s & -> & _)%list_elem_of_fmap. apply missing_section_issue_severity.
  - rewrite check_missing_sections_filter, <- list_fmap_compose.
    erewrite (list_fmap_ext (_ ∘ _)); [|intros ? s _; apply missing_section_issue_section].
    apply fmap_sublist, sublist_filter.
Qed.

Lemma check_missing_sections_absent_key_witness :
  let secs : gmap string string := <["scope" := "Build it."]> ∅ in
  missing_section_issue "timeline" ∈ check_missing_sections secs.
Proof.
  intros secs.
  destruct (check_missing_sections_absent_key secs) as (H & _).
  apply (H "timeline").
  - vm_compute. do 2 right. left.
  - left. reflexivity.
Defined.

(** ** The risk score *)

Section risk_score.

Implicit Types (w : gmap string Z) (i : issue) (issues : list issue).

(** The weight the score adds for an issue whose severity is a string. *)
Definition severity_weight w i : Z :=
  match severity_of i with
  | VStr s => default 1%Z (w !! s)
  | VList _ => 0%Z
  end.

Definition str_severity i : Prop := ∃ s, severity_of i = VStr s.

Definition sum_Z (l : list Z) : Z := foldr Z.add 0%Z l.

Lemma sum_Z_cons (x : Z) (l : list Z) : sum_Z (x :: l) = (x + sum_Z l)%Z.
Proof. reflexivity. Qed.

Lemma score_loop_sum w issues score :
  Forall str_severity issues →
  score_loop w issues score = Some (score + sum_Z (severity_weight w <$> issues))%Z.
Proof.
  intros H. revert score. induction H as [|i issues [s Hs] _ IH]; intros score.
  - simpl. f_equal. unfold sum_Z. simpl. lia.
  - assert (severity_weight w i = default 1%Z (w !! s)) as Hw.
    { unfold severity_weight. by rewrite Hs. }
    rewrite fmap_cons, sum_Z_cons, Hw. simpl. rewrite Hs. simpl.
    rewrite IH. f_equal. lia.
Qed.

Lemma sum_Z_perm (l1 l2 : list Z) : l1 ≡ₚ l2 → sum_Z l1 = sum_Z l2.
Proof.
  induction 1 as [|x l l' _ IH|x y l|l l' l'' _ IH1 _ IH2];
    rewrite ?sum_Z_cons; lia.
Qed.

End risk_score.

(** C7.  On every list of issues whose severities are strings,
    [assign_risk_score] returns the sum over the issues of the weight of
    the issue's severity, in the table supplied or else in the default table
    Critical 10, Warning 5, Info 1; a severity the table does not have weighs
    1; with the default table a list of two Critical, one Warning and one
    Info issue, in any order, scores 26. *)
Theorem assign_risk_score_sum (issues : list issue) (weights : option (gmap string Z)) :
  Forall str_severity issues →
  assign_risk_score issues weights
    = Some (sum_Z (severity_weight (default default_weights weights) <$> issues))
  ∧ (∀ i s, severity_of i = VStr s →
       default default_weights weights !! s = None →
       severity_weight (default default_weights weights) i = 1%Z)
  ∧ (∀ i s v, severity_of i = VStr s →
       default default_weights weights !! s = Some v →
       severity_weight (default default_weights weights) i = v)
  ∧ (default default_weights None !! "Critical" = Some 10%Z
     ∧ default default_weights None !! "Warning" = Some 5%Z
     ∧ default default_weights None !! "Info" = Some 1%Z
     ∧ size (default default_weights None) = 3)
  ∧ (severity_of <$> issues
       ≡ₚ [VStr "Critical"; VStr "Critical"; VStr "Warning"; VStr "Info"] →
     assign_risk_score issues None = Some 26%Z).
Proof.
  intros Hs. split; [|split; [|split; [|split]]].
  - unfold assign_risk_score. rewrite score_loop_sum by done. f_equal; lia.
  - intros i s Hi Hw. unfold severity_weight. by rewrite Hi, Hw.
  - intros i s v Hi Hw. unfold severity_weight. by rewrite Hi, Hw.
  - by vm_compute.
  - intros Hp. unfold assign_risk_score. rewrite score_loop_sum by done.
    f_equal. simpl. rewrite Z.add_0_l.
    assert (severity_weight default_weights <$> issues
            = (fun v => match v with
                        | VStr s => default 1%Z (default_weights !! s)
                        | VList _ => 0%Z
                        end) <$> (severity_of <$> issues)) as ->.
    { rewrite <- list_fmap_compose. done. }
    rewrite (sum_Z_perm _ _ (fmap_Permutation _ _ _ Hp)). reflexivity.
Qed.

Lemma assign_risk_score_sum_witness :
  let issues : list issue :=
    [ <["severity" := VStr "Critical"]> ∅; <["severity" := VStr "Info"]> ∅;
      <["severity" := VStr "Critical"]> ∅; <["severity" := VStr "Warning"]> ∅ ] in
  assign_risk_score issues None = Some 26%Z.
Proof.
  intros issues.
  assert (Forall str_severity issues) as Hs.
  { repeat constructor; eexists; reflexivity. }
  destruct (assign_risk_score_sum issues None Hs) as (_ & _ & _ & _ & H).
  apply H. vm_compute.
  apply (Permutation_trans (l' := [VStr "Critical"; VStr "Critical"; VStr "Info"; VStr "Warning"])).
  - constructor. apply perm_swap.
  - do 2 constructor. apply perm_swap.
Defined.


(** ** Order of the header tests, and lines before the first header *)

Section header_search.

Implicit Types (line name pattern : string) (patterns : list string).

Lemma first_match_None patterns line :
  first_match patterns line = None
  ↔ ∀ p, p ∈ patterns → Re.match_ true p line = None.
Proof.
  induction patterns as [|q qs IH]; simpl.
  - split; [|done]. intros _ p Hp. by apply elem_of_nil in Hp.
  - destruct (Re.match_ true q line) as [m|] eqn:E.
    + split; [done|]. intros H. rewrite H in E; [done|]. apply elem_of_cons; by left.
    + rewrite IH. split.
      * intros H p [->|Hp]%elem_of_cons; auto.
      * intros H p Hp. apply H, elem_of_cons. by right.
Qed.

Lemma first_match_Some patterns line pattern m :
  first_match patterns line = Some (pattern, m) →
  ∃ before after,
    patterns = before ++ pattern :: after
    ∧ Re.match_ true pattern line = Some m
    ∧ ∀ p, p ∈ before → Re.match_ true p line = None.
Proof.
  induction patterns as [|q qs IH]; simpl; [done|].
  destruct (Re.match_ true q line) as [m'|] eqn:E.
  - intros [= -> ->]. exists [], qs. split; [done|]. split; [done|].
    intros p Hp. by apply elem_of_nil in Hp.
  - intros (before & after & -> & Hm & Hb)%IH.
    exists (q :: before), after. split; [done|]. split; [done|].
    intros p [->|Hp]%elem_of_cons; auto.
Qed.

Lemma find_section_None headers line :
  find_section headers line = None
  ↔ ∀ name patterns p,
      (name, patterns) ∈ headers → p ∈ patterns → Re.match_ true p line = None.
Proof.
  induction headers as [|[n ps] hs IH]; simpl.
  - split; [|done]. intros _ ??? H. by apply elem_of_nil in H.
  - destruct (first_match ps line) as [[p m]|] eqn:E.
    + split; [done|]. intros H.
      apply first_match_Some in E as (b & a & -> & Hm & _).
      rewrite (H n (b ++ p :: a) p) in Hm; [done| |].
      * apply elem_of_cons; by left.
      * apply elem_of_app; right. apply elem_of_cons; by left.
    + rewrite IH. split.
      * intros H name patterns p [[= -> ->]|Hin]%elem_of_cons Hp.
        -- by eapply first_match_None.
        -- by eapply H.
      * intros H name patterns p Hin. apply (H name patterns p).
        apply elem_of_cons. by right.
Qed.

Lemma find_section_Some headers line name pattern :
  find_section headers line = Some (name, pattern) →
  ∃ earlier patterns later before after,
    headers = earlier ++ (name, patterns) :: later
    ∧ patterns = before ++ pattern :: after
    ∧ is_Some (Re.match_ true pattern line)
    ∧ (∀ p, p ∈ before → Re.match_ true p line = None)
    ∧ (∀ n ps p, (n, ps) ∈ earlier → p ∈ ps → Re.match_ true p line = None).
Proof.
  induction headers as [|[n ps] hs IH]; simpl; [done|].
  destruct (first_match ps line) as [[p m]|] eqn:E.
  - intros [= -> ->].
    apply first_match_Some in E as (b & a & -> & Hm & Hb).
    exists [], (b ++ pattern :: a), hs, b, a.
    split; [done|]. split; [done|]. split; [by eexists|]. split; [done|].
    intros ??? H. by apply elem_of_nil in H.
  - intros (earlier & patterns & later & b & a & -> & -> & Hm & Hb & He)%IH.
    exists ((n, ps) :: earlier), (b ++ pattern :: a), later, b, a.
    split; [done|]. split; [done|]. split; [done|]. split; [done|].
    intros n' ps' p' [[= -> ->]|Hin]%elem_of_cons Hp.
    + by eapply first_match_None.
    + by eapply He.
Qed.

End header_search.

(** ** The matcher reads a prefix *)

Section matcher_prefix.

Implicit Types (s rest : string) (st : Re.state) (r : Re.regex) (k : Re.cls).

Lemma take_app_length (pre rest : string) :
  Str.take (String.length (pre +:+ rest) - String.length rest) (pre +:+ rest) = pre.
Proof.
  rewrite str_app_length. replace (_ + _ - _) with (String.length pre) by lia.
  induction pre as [|c pre IH].
  - simpl. by destruct rest.
  - rewrite str_app_cons. simpl. by rewrite IH.
Qed.

Lemma drop_app_length (pre rest : string) :
  Str.drop (String.length pre) (pre +:+ rest) = rest.
Proof. induction pre as [|c pre IH]; [done|]. by rewrite str_app_cons. Qed.

Lemma star_cls_suffix k s rest :
  rest ∈ Re.star_cls k s → ∃ pre, s = pre +:+ rest.
Proof.
  induction s as [|c s IH]; simpl.
  - intros ->%list_elem_of_singleton. by exists "".
  - intros [H| ->%list_elem_of_singleton]%elem_of_app; [|by exists ""].
    destruct (Re.cls_mem k c); [|by apply elem_of_nil in H].
    destruct (IH H) as [pre ->]. by exists (String c pre).
Qed.

Lemma plus_cls_suffix k s rest :
  rest ∈ Re.plus_cls k s → ∃ pre, s = pre +:+ rest.
Proof.
  destruct s as [|c s]; simpl; [by intros ?%elem_of_nil|].
  destruct (Re.cls_mem k c); [|by intros ?%elem_of_nil].
  intros [pre ->]%star_cls_suffix. by exists (String c pre).
Qed.

Lemma rep_cls_suffix n k s rest :
  rest ∈ Re.rep_cls n k s → ∃ pre, s = pre +:+ rest.
Proof.
  revert s. induction n as [|n IH]; intros s; simpl.
  - intros ->%list_elem_of_singleton. by exists "".
  - destruct s as [|c s]; [by intros ?%elem_of_nil|].
    destruct (Re.cls_mem k c); [|by intros ?%elem_of_nil].
    intros [pre ->]%IH. by exists (String c pre).
Qed.

Lemma re_run_suffix ic r st st' :
  st' ∈ Re.re_run ic r st → ∃ pre, st.2 = pre +:+ st'.2.
Proof.
  revert st st'. induction r as [|p|k|r1 IH1 r2 IH2|r IH|k|n k|r IH];
    intros [cap s] st'; simpl.
  - intros ->%list_elem_of_singleton. by exists "".
  - destruct s as [|x s]; [by intros ?%elem_of_nil|].
    destruct (Char.eqb_ci ic p x); [|by intros ?%elem_of_nil].
    intros ->%list_elem_of_singleton. by exists (String x "").
  - destruct s as [|x s]; [by intros ?%elem_of_nil|].
    destruct (Re.cls_mem k x); [|by intros ?%elem_of_nil].
    intros ->%list_elem_of_singleton. by exists (String x "").
  - intros (mid & H2 & H1)%list_elem_of_bind.
    destruct (IH1 _ _ H1) as [pre1 E1], (IH2 _ _ H2) as [pre2 E2].
    simpl in E1. exists (pre1 +:+ pre2). by rewrite E1, E2, str_app_assoc.
  - intros [H| ->%list_elem_of_singleton]%elem_of_app; [|by exists ""].
    apply (IH _ _ H).
  - intros (rest & -> & [pre ->]%plus_cls_suffix)%list_elem_of_fmap. by exists pre.
  - intros (rest & -> & [pre ->]%rep_cls_suffix)%list_elem_of_fmap. by exists pre.
  - intros (mid & -> & H)%list_elem_of_fmap. apply (IH _ _ H).
Qed.

(** A match object describes a prefix of the text it was found at. *)
Lemma match_at_prefix ic r pos s m :
  Re.match_at ic r pos s = Some m →
  Re.m_start m = pos
  ∧ Re.m_end m = pos + String.length (Re.group0 m)
  ∧ s = Re.group0 m +:+ Str.drop (String.length (Re.group0 m)) s.
Proof.
  unfold Re.match_at.
  destruct (Re.re_run ic r (None, s)) as [|st l] eqn:E; [done|].
  intros [= <-]. simpl.
  assert (st ∈ Re.re_run ic r (None, s)) as [pre Hpre]%re_run_suffix.
  { rewrite E. apply elem_of_cons; by left. }
  simpl in Hpre. subst s.
  rewrite take_app_length, drop_app_length, str_app_length.
  split; [done|]. split; [lia|done].
Qed.

Lemma re_match_prefix ic pattern line m :
  Re.match_ ic pattern line = Some m →
  Re.m_start m = 0
  ∧ line = Re.group0 m +:+ Str.drop (Re.m_end m) line.
Proof.
  unfold Re.match_, Re.re_match. destruct (Re.compile pattern) as [r|]; [|done].
  simpl. intros (H1 & H2 & H3)%match_at_prefix. split; [done|].
  by rewrite H2.
Qed.

End matcher_prefix.

(** ** Lines of a text *)

Lemma split_nl_not_nil (s : string) : Str.split_nl s ≠ [].
Proof.
  induction s as [|c s IH]; simpl; [done|].
  destruct (Ascii.eqb c "010"); [done|]. by destruct (Str.split_nl s).
Qed.

Lemma split_nl_app (s t : string) :
  Str.split_nl (s +:+ Str.nl +:+ t) = Str.split_nl s ++ Str.split_nl t.
Proof.
  induction s as [|c s IH].
  - reflexivity.
  - rewrite str_app_cons. simpl. destruct (Ascii.eqb c "010").
    + by rewrite IH.
    + rewrite IH. pose proof (split_nl_not_nil s).
      by destruct (Str.split_nl s).
Qed.

Section dropped_lines.

Implicit Types (st : seg_state) (lines : list string).

Lemma step_before_header st line :
  current_section st = None → recognised line = None → step st line = st.
Proof.
  intros Hc Hr. rewrite (step_body _ _ Hr), Hc. simpl. by rewrite andb_false_r.
Qed.

Lemma foldl_step_before_header lines st :
  current_section st = None →
  (∀ line, line ∈ lines → recognised line = None) →
  foldl step st lines = st.
Proof.
  induction lines as [|l ls IH]; simpl; [done|].
  intros Hc H. rewrite step_before_header; [|done|].
  - apply IH; [done|]. intros line Hin. apply H, elem_of_cons. by right.
  - apply H, elem_of_cons. by left.
Qed.

Lemma step_blank st line : Str.strip line = "" → step st line = st.
Proof. unfold step. by intros ->. Qed.

End dropped_lines.

(** ** Repeated headers *)

(** The lines a run of body lines adds to the open section. *)
Definition body_lines (lines : list string) : list string :=
  filter (fun l => l ≠ "") (Str.strip <$> lines).

Section repeated_headers.

Implicit Types (st : seg_state) (line name : string) (body : list string).

Lemma foldl_step_body body st :
  truthy_opt (current_section st) = true →
  (∀ l, l ∈ body → recognised l = None) →
  foldl step st body =
    SegState (sections st) (current_section st) (current_content st ++ body_lines body).
Proof.
  revert st. induction body as [|l ls IH]; intros st Hc H; simpl.
  - unfold body_lines. simpl. rewrite app_nil_r. by destruct st.
  - assert (recognised l = None) as Hl by (apply H, elem_of_cons; by left).
    assert (∀ l', l' ∈ ls → recognised l' = None) as Hls
      by (intros l' Hin; apply H, elem_of_cons; by right).
    rewrite (step_body _ _ Hl), Hc, andb_true_r.
    unfold body_lines. rewrite fmap_cons, filter_cons.
    destruct (Str.truthy (Str.strip l)) eqn:E.
    + apply truthy_true in E. rewrite decide_True by done.
      rewrite IH; [|done|done]. simpl. by rewrite <- app_assoc.
    + rewrite decide_False; [by apply IH|].
      intros Hne. apply truthy_true in Hne. congruence.
Qed.

Lemma header_then_body st line name body :
  recognised line = Some name →
  (∀ l, l ∈ body → recognised l = None) →
  foldl step st (line :: body) =
    SegState (save_section st) (Some name)
             (header_content name (Str.strip line) ++ body_lines body).
Proof.
  intros Hr Hb. simpl. rewrite (step_header _ _ _ Hr).
  rewrite foldl_step_body; [done| |done].
  simpl. apply section_names_truthy. by eapply recognised_name.
Qed.

End repeated_headers.

(** C5.  The loop handles the lines in their order; a blank line changes
    nothing; on any other line the patterns are tried at the start of the
    line (the match begins at offset 0 and covers a prefix of the line),
    section after section in the order of the table and pattern after
    pattern in the order of the section's list, and the first pattern that
    matches decides: every pattern before it, in its section and in the
    sections before, does not match, and the line opens the section of that
    pattern, which is saved and opened anew; a line that no pattern matches
    is added to the open section, or dropped when none is open.  Lines met
    before any header is recognised leave no trace in the sections: a text
    of such lines, one header line and lines without a header gives the
    section of the header what follows the header, and nothing else. *)
Theorem segmenter_order_and_dropped_lines :
  (∀ lines1 lines2, scan (lines1 ++ lines2) = foldl step (scan lines1) lines2)
  ∧ (∀ st line, Str.strip line = "" → step st line = st)
  ∧ (∀ line name pattern,
       find_section section_headers line = Some (name, pattern) →
       ∃ earlier patterns later before after m,
         section_headers = earlier ++ (name, patterns) :: later
         ∧ patterns = before ++ pattern :: after
         ∧ Re.match_ true pattern line = Some m
         ∧ Re.m_start m = 0
         ∧ line = Re.group0 m +:+ Str.drop (Re.m_end m) line
         ∧ (∀ p, p ∈ before → Re.match_ true p line = None)
         ∧ (∀ n ps p, (n, ps) ∈ earlier → p ∈ ps → Re.match_ true p line = None))
  ∧ (∀ line,
       find_section section_headers line = None
       ↔ ∀ name patterns p, (name, patterns) ∈ section_headers → p ∈ patterns →
           Re.match_ true p line = None)
  ∧ (∀ before rest,
       (∀ line, line ∈ before → recognised line = None) →
       scan (before ++ rest) = scan rest)
  ∧ (∀ text1 text2,
       (∀ line, line ∈ Str.split_nl text1 → recognised line = None) →
       primary_sections (text1 +:+ Str.nl +:+ text2) = primary_sections text2
       ∧ (any_value (primary_sections text2) = true →
          extract_sections (text1 +:+ Str.nl +:+ text2) = primary_sections text2))
  ∧ (∀ st line name pattern,
       Str.strip line ≠ "" →
       find_section section_headers (Str.strip line) = Some (name, pattern) →
       step st line = SegState (save_section st) (Some name)
                               (header_content name (Str.strip line)))
  ∧ (∀ st line,
       Str.strip line ≠ "" →
       find_section section_headers (Str.strip line) = None →
       step st line = if truthy_opt (current_section st)
                      then SegState (sections st) (current_section st)
                                    (current_content st ++ [Str.strip line])
                      else st)
  ∧ (∀ line name,
       recognised line = Some name
       ↔ Str.strip line ≠ ""
         ∧ ∃ pattern, find_section section_headers (Str.strip line) = Some (name, pattern))
  ∧ (∀ text before line name body,
       Str.split_nl text = before ++ line :: body →
       (∀ l, l ∈ before → recognised l = None) →
       recognised line = Some name →
       (∀ l, l ∈ body → recognised l = None) →
       let content := header_content name (Str.strip line) ++ body_lines body in
       scan (Str.split_nl text) = SegState empty_sections (Some name) content
       ∧ primary_sections text =
           if bool_decide (content = []) then empty_sections
           else <[name := Str.strip (Str.join Str.nl content)]> empty_sections).
Proof.
  assert (∀ before rest,
            (∀ line, line ∈ before → recognised line = None) →
            scan (before ++ rest) = scan rest) as Hdrop.
  { intros before rest H. unfold scan. rewrite foldl_app.
    by rewrite (foldl_step_before_header before). }
  split_and!.
  - intros. apply foldl_app.
  - apply step_blank.
  - intros line name pattern H.
    apply find_section_Some in H
      as (earlier & patterns & later & b & a & E1 & E2 & [m Hm] & Hb & He).
    destruct (re_match_prefix _ _ _ _ Hm) as [H0 Hp].
    by exists earlier, patterns, later, b, a, m.
  - intros line. apply find_section_None.
  - exact Hdrop.
  - intros text1 text2 H.
    assert (primary_sections (text1 +:+ Str.nl +:+ text2) = primary_sections text2) as E.
    { unfold primary_sections. by rewrite split_nl_app, Hdrop. }
    split; [done|]. intros Hany. unfold extract_sections. by rewrite E, Hany.
  - intros st line name pattern Hne Hf. unfold step.
    apply is_empty_false in Hne. by rewrite Hne, Hf.
  - intros st line Hne Hf. unfold step.
    apply is_empty_false in Hne. by rewrite Hne, Hf.
  - intros line name. unfold recognised.
    destruct (Str.is_empty (Str.strip line)) eqn:E.
    + apply is_empty_true in E. split; [done|]. by intros [? _].
    + apply is_empty_false in E.
      destruct (find_section section_headers (Str.strip line)) as [[n p]|]; simpl.
      * split.
        -- intros [= ->]. split; [done|]. by exists p.
        -- intros [_ [p' [= -> _]]]. done.
      * split; [done|]. by intros [_ [? ?]].
  - intros text before line name body Hsplit Hbefore Hline Hbody content.
    assert (scan (Str.split_nl text) = SegState empty_sections (Some name) content) as Hscan.
    { rewrite Hsplit, Hdrop by done. unfold scan.
      by rewrite (header_then_body _ _ _ _ Hline Hbody). }
    split; [done|]. unfold primary_sections. rewrite Hscan.
    case_bool_decide as Hc.
    + by rewrite save_section_empty.
    + rewrite (save_section_store _ name); [done|done| |done].
      by eapply recognised_name.
Qed.

Lemma segmenter_order_and_dropped_lines_witness :
  primary_sections ("Prepared for the client" +:+ Str.nl +:+ "SCOPE: all works")
  = primary_sections "SCOPE: all works"
  ∧ (∃ name pattern,
       find_section section_headers "Scope of work" = Some (name, pattern)
       ∧ name = "scope")
  ∧ primary_sections
      (Str.join Str.nl ["Prepared for the client"; "Scope: all works"; "  by hand "])
    !! "scope"
    = Some (": all works" +:+ Str.nl +:+ "by hand").
Proof.
  destruct segmenter_order_and_dropped_lines
    as (_ & _ & H3 & _ & _ & H6 & _ & _ & _ & H10).
  split_and!.
  - apply H6. intros line Hin. vm_compute in Hin.
    apply list_elem_of_singleton in Hin. subst line. reflexivity.
  - destruct (find_section section_headers "Scope of work") as [[n p]|] eqn:E.
    + exists n, p. split; [done|].
      destruct (H3 _ _ _ E) as (earlier & ps & later & _).
      vm_compute in E. by injection E as <- _.
    + by vm_compute in E.
  - destruct (H10 (Str.join Str.nl ["Prepared for the client"; "Scope: all works";
                                    "  by hand "])
                  ["Prepared for the client"] "Scope: all works" "scope"
                  ["  by hand "]) as [_ H].
    + reflexivity.
    + intros l ->%list_elem_of_singleton. reflexivity.
    + reflexivity.
    + intros l ->%list_elem_of_singleton. reflexivity.
    + rewrite H. reflexivity.
Defined.

(** C9.  Take any state of the loop, a line that carries the header of a
    section, and the lines after it up to the next header or the end of the
    text.  When the section is saved next (at the next header line, or
    after the loop), it receives the text gathered since this header alone,
    whatever it held before; if nothing was gathered, what it held before
    stays.  In terms of texts: when the last header of a text is that of
    a section, the section ends with the text gathered after that header,
    or, if there is none, with what the lines before the header gave it. *)
Theorem repeated_header_replaces (st : seg_state) (line name : string)
                                 (body : list string) :
  recognised line = Some name →
  (∀ l, l ∈ body → recognised l = None) →
  let content := header_content name (Str.strip line) ++ body_lines body in
  let st' := foldl step st (line :: body) in
  st' = SegState (save_section st) (Some name) content
  ∧ (content ≠ [] →
     save_section st' = <[name := Str.strip (Str.join Str.nl content)]> (save_section st)
     ∧ save_section st' !! name = Some (Str.strip (Str.join Str.nl content)))
  ∧ (content = [] → save_section st' = save_section st)
  ∧ (∀ next, is_Some (recognised next) → sections (step st' next) = save_section st')
  ∧ (∀ text1 text2,
       st = scan (Str.split_nl text1) → Str.split_nl text2 = line :: body →
       primary_sections (text1 +:+ Str.nl +:+ text2) =
         if bool_decide (content = []) then primary_sections text1
         else <[name := Str.strip (Str.join Str.nl content)]> (primary_sections text1)).
Proof.
  intros Hr Hb content st'.
  assert (st' = SegState (save_section st) (Some name) content) as Hst
    by by apply header_then_body.
  assert (name ∈ section_names) as Hn by by eapply recognised_name.
  assert (content ≠ [] →
          save_section st' = <[name := Str.strip (Str.join Str.nl content)]> (save_section st))
    as Hstore.
  { intros Hc. rewrite Hst. by rewrite (save_section_store _ name). }
  assert (content = [] → save_section st' = save_section st) as Hkeep.
  { intros Hc. rewrite Hst. by rewrite save_section_empty. }
  split; [done|]. split; [|split; [done|split]].
  - intros Hc. split; [by apply Hstore|]. rewrite Hstore by done.
    apply lookup_insert_eq.
  - intros next [n Hnext]. by rewrite (step_header _ _ _ Hnext).
  - intros text1 text2 -> Ht2. unfold primary_sections at 1.
    rewrite split_nl_app, Ht2. unfold scan. rewrite foldl_app.
    fold (scan (Str.split_nl text1)). fold st'.
    case_bool_decide as Hc.
    + by rewrite Hkeep.
    + by rewrite Hstore.
Qed.

Lemma repeated_header_replaces_witness :
  let text1 := "SCOPE" +:+ Str.nl +:+ "First body." in
  let text2 := "Scope" +:+ Str.nl +:+ "Second body." in
  primary_sections text1 !! "scope" = Some "First body."
  ∧ primary_sections (text1 +:+ Str.nl +:+ text2) !! "scope" = Some "Second body."
  ∧ primary_sections (text1 +:+ Str.nl +:+ "Scope") !! "scope" = Some "First body.".
Proof.
  intros text1 text2. split; [reflexivity|]. split.
  - destruct (repeated_header_replaces (scan (Str.split_nl text1)) "Scope" "scope"
                ["Second body."]) as (_ & _ & _ & _ & H).
    + reflexivity.
    + intros l ->%list_elem_of_singleton. reflexivity.
    + rewrite (H text1 text2); [|reflexivity|reflexivity]. reflexivity.
  - destruct (repeated_header_replaces (scan (Str.split_nl text1)) "Scope" "scope" [])
      as (_ & _ & _ & _ & H).
    + reflexivity.
    + intros l ?%elem_of_nil. done.
    + rewrite (H text1 "Scope"); [|reflexivity|reflexivity]. reflexivity.
Defined.

(** ** Headers without a body *)

(** The first line that is not blank, if there is one, carries a header. *)
Fixpoint next_is_header (lines : list string) : bool :=
  match lines with
  | [] => true
  | l :: rest =>
      if Str.is_empty (Str.strip l) then next_is_header rest
      else bool_decide (is_Some (recognised l))
  end.

(** The line carries the header of [name] and nothing else, and no body
    line comes before the next header or the end. *)
Definition bare_header (name line : string) (rest : list string) : bool :=
  bool_decide (recognised line = Some name)
  && bool_decide (header_content name (Str.strip line) = [])
  && next_is_header rest.

(** Some header line of [name] is bare. *)
Fixpoint has_bare_header (name : string) (lines : list string) : bool :=
  match lines with
  | [] => false
  | l :: rest => bare_header name l rest || has_bare_header name rest
  end.

(** Every header line of [name] is bare. *)
Fixpoint all_headers_bare (name : string) (lines : list string) : bool :=
  match lines with
  | [] => true
  | l :: rest =>
      (if bool_decide (recognised l = Some name) then bare_header name l rest else true)
      && all_headers_bare name rest
  end.

Section bare_headers.

Implicit Types (st : seg_state) (line name : string) (lines : list string).

(** The section is still empty, and if it is the open one, nothing has been
    gathered for it and nothing will be before the next header. *)
Definition still_empty name st lines : Prop :=
  sections st !! name = Some ""
  ∧ (current_section st = Some name →
     current_content st = [] ∧ next_is_header lines = true).

Lemma still_empty_save name st lines :
  still_empty name st lines → save_section st !! name = Some "".
Proof.
  intros [Hs Hc]. destruct (decide (current_section st = Some name)) as [E|E].
  - destruct (Hc E) as [Hc' _]. by rewrite save_section_empty.
  - by rewrite save_section_other.
Qed.

Lemma still_empty_step name st line lines :
  all_headers_bare name (line :: lines) = true →
  still_empty name st (line :: lines) →
  still_empty name (step st line) lines.
Proof.
  simpl. intros [Hb Hrest]%andb_true_iff Hinv.
  destruct (recognised line) as [n|] eqn:Hr.
  - rewrite (step_header _ _ _ Hr). split; simpl.
    + by eapply still_empty_save.
    + intros [= ->]. rewrite bool_decide_eq_true_2 in Hb by done.
      unfold bare_header in Hb.
      apply andb_true_iff in Hb as [[_ H1]%andb_true_iff H2].
      by apply bool_decide_eq_true_1 in H1.
  - destruct Hinv as [Hs Hc]. rewrite (step_body _ _ Hr).
    destruct (decide (current_section st = Some name)) as [E|E].
    + destruct (Hc E) as [Hc1 Hc2]. simpl in Hc2.
      destruct (Str.is_empty (Str.strip line)) eqn:Hblank.
      * unfold Str.truthy. rewrite Hblank. simpl. by split.
      * apply bool_decide_eq_true_1 in Hc2 as [? Hc2]. congruence.
    + destruct (_ && _); split; simpl; done.
Qed.

Lemma still_empty_foldl name lines st :
  all_headers_bare name lines = true →
  still_empty name st lines →
  save_section (foldl step st lines) !! name = Some "".
Proof.
  revert st. induction lines as [|l ls IH]; intros st Hb Hinv; simpl.
  - by eapply still_empty_save.
  - apply IH.
    + simpl in Hb. by apply andb_true_iff in Hb as [_ ?].
    + by apply still_empty_step.
Qed.

End bare_headers.

(** C3, as the specification has it, fails: a bare header line does not
    make the section empty when the keyword fallback takes over (first
    text), nor when the same header occurs elsewhere with a body (second
    text). *)
Lemma bare_header_not_always_missing :
  ¬ (∀ text name,
       name ∈ section_names →
       has_bare_header name (Str.split_nl text) = true →
       extract_sections text !! name = Some ""
       ∧ missing_section_issue name ∈ check_missing_sections (extract_sections text))
  ∧ (let text := "SCOPE" +:+ Str.nl +:+ "TIMELINE" in
     has_bare_header "scope" (Str.split_nl text) = true
     ∧ extract_sections text !! "scope" = Some text
     ∧ (fun i : issue => i !! "section") <$> check_missing_sections (extract_sections text)
       = (fun s => Some (VStr s)) <$>
           ["project_overview"; "timeline"; "materials"; "costs"; "payment_terms";
            "deliverables"; "quality_standards"; "legal_clauses"])
  ∧ (let text := Str.join Str.nl
                   ["SCOPE"; "All civil works."; "TIMELINE"; "One year."; "SCOPE"; "COSTS"] in
     has_bare_header "scope" (Str.split_nl text) = true
     ∧ extract_sections text !! "scope" = Some "All civil works.").
Proof.
  split; [|split].
  - intros H.
    destruct (H ("SCOPE" +:+ Str.nl +:+ "TIMELINE") "scope") as [H1 _].
    + vm_compute. right. left.
    + reflexivity.
    + vm_compute in H1. discriminate.
  - vm_compute. repeat split; reflexivity.
  - vm_compute. repeat split; reflexivity.
Qed.

(** C3, amended.  If every line that carries the header of a section
    carries nothing else and is followed, blank lines apart, by another
    header line or by the end of the text, then the loop leaves the section
    empty; and if some section did receive a text, so that the fallback is
    not taken, [extract_sections] maps the section to the empty string and
    [check_missing_sections] emits its Critical [missing_section] issue. *)
Theorem bare_headers_give_missing_section (text name : string) :
  name ∈ section_names →
  all_headers_bare name (Str.split_nl text) = true →
  primary_sections text !! name = Some ""
  ∧ (any_value (primary_sections text) = true →
     extract_sections text !! name = Some ""
     ∧ missing_section_issue name ∈ check_missing_sections (extract_sections text)
     ∧ missing_section_issue name !! "severity" = Some (VStr "Critical")
     ∧ missing_section_issue name !! "type" = Some (VStr "missing_section")
     ∧ missing_section_issue name !! "section" = Some (VStr name)).
Proof.
  intros Hn Hb.
  assert (primary_sections text !! name = Some "") as Hp.
  { apply still_empty_foldl; [done|]. split; [|done].
    by apply lookup_empty_sections. }
  split; [done|]. intros Hany.
  assert (extract_sections text = primary_sections text) as ->.
  { unfold extract_sections. by rewrite Hany. }
  split; [done|]. split; [|split; [|split]].
  - rewrite check_missing_sections_filter. apply list_elem_of_fmap_2.
    apply list_elem_of_filter. split.
    + apply Is_true_true, is_missing_spec. by right.
    + by rewrite critical_sections_names.
  - apply missing_section_issue_severity.
  - apply missing_section_issue_severity.
  - apply missing_section_issue_section.
Qed.

Lemma bare_headers_give_missing_section_witness :
  let text := Str.join Str.nl ["SCOPE"; "TIMELINE"; "One year."] in
  extract_sections text !! "scope" = Some ""
  ∧ missing_section_issue "scope" ∈ check_missing_sections (extract_sections text).
Proof.
  intros text.
  destruct (bare_headers_give_missing_section text "scope") as (_ & H).
  - vm_compute. right. left.
  - reflexivity.
  - destruct H as (H1 & H2 & _); [reflexivity|]. by split.
Defined.

(** ** Searching for a phrase *)

(** The pattern of a text without special characters. *)
Definition lit (w : string) : Re.regex := Re.seq (Re.Chr <$> list_ascii_of_string w).

Fixpoint prefix_ci (ignorecase : bool) (w s : string) : bool :=
  match w, s with
  | "", _ => true
  | String a w', String b s' => Char.eqb_ci ignorecase a b && prefix_ci ignorecase w' s'
  | String _ _, "" => false
  end.

(** The phrase occurs in the text, letter case apart. *)
Definition occurs_ci (w text : string) : Prop :=
  ∃ pre w' post, text = pre +:+ w' +:+ post ∧ Str.lower w' = Str.lower w.

(** The phrase a pattern of [AMBIGUOUS_TERMS] stands for: the pattern
    without its backslashes. *)
Definition phrase (term : string) : string :=
  Str.filter (fun c => negb (Ascii.eqb c "\")) term.

Section phrase_search.

Implicit Types (w s text : string) (ic : bool).

Lemma re_run_lit ic w cap s :
  Re.re_run ic (lit w) (cap, s) =
    if prefix_ci ic w s then [(cap, Str.drop (String.length w) s)] else [].
Proof.
  revert s. induction w as [|c w IH]; intros s; [done|].
  change (lit (String c w)) with (Re.Cat (Re.Chr c) (lit w)).
  destruct s as [|x s]; [done|]. simpl.
  destruct (Char.eqb_ci ic c x); [|done]. simpl.
  rewrite IH, app_nil_r. done.
Qed.

Lemma prefix_ci_spec w s :
  prefix_ci true w s = true ↔ ∃ w' rest, s = w' +:+ rest ∧ Str.lower w' = Str.lower w.
Proof.
  revert s. induction w as [|c w IH]; intros s; simpl.
  - split; [|done]. intros _. by exists "", s.
  - destruct s as [|x s].
    + split; [done|]. intros ([|??] & rest & H1 & H2); done.
    + rewrite andb_true_iff, IH. unfold Char.eqb_ci. rewrite Ascii.eqb_eq. split.
      * intros [Hc (w' & rest & -> & Hw)]. exists (String x w'), rest.
        split; [done|]. unfold Str.lower in *. simpl. by rewrite Hc, Hw.
      * intros ([|y w'] & rest & H1 & H2); [done|].
        rewrite str_app_cons in H1. injection H1 as <- ->.
        unfold Str.lower in H2. simpl in H2. injection H2 as Hc Hw.
        split; [done|]. by exists w', rest.
Qed.

Lemma search_from_lit ic w pos s :
  is_Some (Re.search_from ic (lit w) pos s)
  ↔ ∃ pre post, s = pre +:+ post ∧ prefix_ci ic w post = true.
Proof.
  revert pos. induction s as [|x s IH]; intros pos; simpl;
    unfold Re.match_at; rewrite re_run_lit.
  - destruct (prefix_ci ic w "") eqn:E.
    + split; [|by eexists]. intros _. by exists "", "".
    + split; [by intros [??]|]. intros ([|??] & post & H1 & H2); [|done].
      rewrite str_app_nil_l in H1. subst post. congruence.
  - destruct (prefix_ci ic w (String x s)) eqn:E.
    + split; [|by eexists]. intros _. by exists "", (String x s).
    + rewrite IH. split.
      * intros (pre & post & -> & H). by exists (String x pre), post.
      * intros ([|y pre] & post & H1 & H2).
        -- rewrite str_app_nil_l in H1. subst post. congruence.
        -- rewrite str_app_cons in H1. injection H1 as <- ->. by exists pre, post.
Qed.

Lemma search_lit_occurs w text :
  is_Some (Re.re_search true (lit w) text) ↔ occurs_ci w text.
Proof.
  unfold Re.re_search, occurs_ci. rewrite search_from_lit. split.
  - intros (pre & post & -> & (w' & rest & -> & H)%prefix_ci_spec).
    by exists pre, w', rest.
  - intros (pre & w' & post & -> & H). exists pre, (w' +:+ post).
    split; [done|]. apply prefix_ci_spec. by exists w', post.
Qed.

Lemma ambiguous_terms_compile term :
  term ∈ AMBIGUOUS_TERMS → Re.compile term = Some (lit (phrase term)).
Proof.
  unfold AMBIGUOUS_TERMS. rewrite !elem_of_cons, elem_of_nil.
  intros H. repeat (destruct H as [->|H]; [reflexivity|]). done.
Qed.

Lemma ambiguous_term_found term text :
  term ∈ AMBIGUOUS_TERMS →
  is_Some (Re.search true term text) ↔ occurs_ci (phrase term) text.
Proof.
  intros H. unfold Re.search. rewrite (ambiguous_terms_compile _ H). simpl.
  apply search_lit_occurs.
Qed.

Lemma ambiguous_loop_filter text todo issues :
  ambiguous_loop text todo issues =
    issues ++ (ambiguous_term_issue <$>
                 filter (fun t => is_Some (Re.search true t text)) todo).
Proof.
  revert issues. induction todo as [|t todo IH]; intros issues; simpl.
  - by rewrite app_nil_r.
  - rewrite IH, filter_cons. case_bool_decide as E.
    + rewrite decide_True by done. by rewrite <- app_assoc.
    + by rewrite decide_False.
Qed.

Lemma check_ambiguous_terms_filter text :
  check_ambiguous_terms text =
    ambiguous_term_issue <$>
      filter (fun t => is_Some (Re.search true t text)) AMBIGUOUS_TERMS.
Proof. apply ambiguous_loop_filter. Qed.

Lemma ambiguous_term_issue_fields term :
  ambiguous_term_issue term !! "term" = Some (VStr term)
  ∧ ambiguous_term_issue term !! "severity" = Some (VStr "Warning")
  ∧ ambiguous_term_issue term !! "type" = Some (VStr "ambiguous_term")
  ∧ ambiguous_term_issue term !! "message"
    = Some (VStr ("Ambiguous term found: " +:+ dquote +:+ term +:+ dquote)).
Proof.
  unfold ambiguous_term_issue. split_and!; reflexivity.
Qed.

(** The issues of one term among those of a duplicate-free list of terms. *)
Lemma issues_of_term (P : string → Prop) `{!∀ t, Decision (P t)}
                     (terms : list string) (term : string) :
  NoDup terms → term ∈ terms →
  filter (fun i : issue => i !! "term" = Some (VStr term))
         (ambiguous_term_issue <$> filter P terms)
  = if decide (P term) then [ambiguous_term_issue term] else [].
Proof.
  assert (∀ l, term ∉ l →
            filter (fun i : issue => i !! "term" = Some (VStr term))
                   (ambiguous_term_issue <$> filter P l) = []) as Hout.
  { induction l as [|t l IH]; intros Hnotin; [done|].
    apply not_elem_of_cons in Hnotin as [Hne Hnotin].
    rewrite filter_cons. destruct (decide (P t)); [|by apply IH].
    rewrite fmap_cons, filter_cons, decide_False; [by apply IH|].
    destruct (ambiguous_term_issue_fields t) as [-> _]. congruence. }
  induction terms as [|t terms IH]; intros Hnd Hin; [by apply elem_of_nil in Hin|].
  apply NoDup_cons in Hnd as [Hnotin Hnd]. rewrite filter_cons.
  destruct (decide (t = term)) as [->|Hne].
  - destruct (decide (P term)); [|by apply Hout].
    rewrite fmap_cons, filter_cons, decide_True
      by apply ambiguous_term_issue_fields.
    by rewrite Hout.
  - apply elem_of_cons in Hin as [->|Hin]; [done|].
    destruct (decide (P t)); [|by apply IH].
    rewrite fmap_cons, filter_cons, decide_False; [by apply IH|].
    destruct (ambiguous_term_issue_fields t) as [-> _]. congruence.
Qed.

End phrase_search.

(** C6.  For every text and every pattern of [AMBIGUOUS_TERMS], the issues
    of [check_ambiguous_terms] that carry the pattern as their term are:
    the one Warning issue of the pattern, naming it, if the phrase occurs
    somewhere in the text, letter case apart, however often; none
    otherwise.  Every issue emitted is the issue of one of the patterns. *)
Theorem check_ambiguous_terms_once (text term : string) :
  term ∈ AMBIGUOUS_TERMS →
  let hits := filter (fun i : issue => i !! "term" = Some (VStr term))
                     (check_ambiguous_terms text) in
  (occurs_ci (phrase term) text → hits = [ambiguous_term_issue term])
  ∧ (¬ occurs_ci (phrase term) text → hits = [])
  ∧ (List.length hits ≤ 1)%nat
  ∧ ambiguous_term_issue term !! "term" = Some (VStr term)
  ∧ ambiguous_term_issue term !! "severity" = Some (VStr "Warning")
  ∧ ambiguous_term_issue term !! "type" = Some (VStr "ambiguous_term")
  ∧ ambiguous_term_issue term !! "message"
    = Some (VStr ("Ambiguous term found: " +:+ dquote +:+ term +:+ dquote))
  ∧ (∀ i, i ∈ check_ambiguous_terms text →
       ∃ t, t ∈ AMBIGUOUS_TERMS ∧ i = ambiguous_term_issue t
            ∧ occurs_ci (phrase t) text).
Proof.
  intros Hin hits.
  assert (hits = if decide (is_Some (Re.search true term text))
                 then [ambiguous_term_issue term] else []) as Hhits.
  { unfold hits. rewrite check_ambiguous_terms_filter.
    apply issues_of_term; [|done].
    unfold AMBIGUOUS_TERMS. by apply (bool_decide_unpack _). }
  split; [|split; [|split; [|repeat split; try apply ambiguous_term_issue_fields]]].
  - intros Ho. rewrite Hhits, decide_True; [done|]. by apply ambiguous_term_found.
  - intros Ho. rewrite Hhits, decide_False; [done|]. by rewrite ambiguous_term_found.
  - rewrite Hhits. destruct (decide _); simpl; lia.
  - intros i. rewrite check_ambiguous_terms_filter.
    intros (t & -> & [Ht Hint]%list_elem_of_filter)%list_elem_of_fmap.
    exists t. split; [done|]. split; [done|]. by apply ambiguous_term_found.
Qed.

Lemma check_ambiguous_terms_once_witness :
  let text := "Finish AS PER STANDARD, paint as per standard." in
  filter (fun i : issue => i !! "term" = Some (VStr "as per standard"))
         (check_ambiguous_terms text)
  = [ambiguous_term_issue "as per standard"].
Proof.
  intros text.
  destruct (check_ambiguous_terms_once text "as per standard") as (H & _).
  - vm_compute. left.
  - apply H. exists "Finish ", "AS PER STANDARD", ", paint as per standard.".
    split; reflexivity.
Defined.

(** ** Normalising twice *)

(** A line without a line feed. *)
Definition no_nl (l : string) : Prop :=
  Str.forallb (fun c => negb (Ascii.eqb c "010")) l = true.

(** A line as [clean_text] keeps it: stripped, not empty, not a header or
    footer, and without a line feed. *)
Definition kept_line (l : string) : Prop :=
  stripped l ∧ l ≠ "" ∧ _is_header_footer l = false ∧ no_nl l.

Section normalising_twice.

Implicit Types (l s : string) (lines : list string).

Lemma split_nl_no_nl s : Forall no_nl (Str.split_nl s).
Proof.
  induction s as [|c s IH]; simpl.
  - by repeat constructor.
  - destruct (Ascii.eqb c "010") eqn:E.
    + by constructor.
    + destruct (Str.split_nl s) as [|l ls].
      { constructor; [|done]. unfold no_nl. simpl. by rewrite E. }
      apply Forall_cons in IH as [Hl Hls]. constructor; [|done].
      unfold no_nl in *. simpl. by rewrite E, Hl.
Qed.

Lemma lstrip_no_nl l : no_nl l → no_nl (Str.lstrip l).
Proof.
  unfold no_nl. induction l as [|c l IH]; simpl; [done|].
  intros [Hc Hl]%andb_true_iff. destruct (Char.is_space c); [by apply IH|].
  simpl. by rewrite Hc, Hl.
Qed.

Lemma rstrip_no_nl l : no_nl l → no_nl (Str.rstrip l).
Proof.
  unfold no_nl. induction l as [|c l IH]; simpl; [done|].
  intros [Hc Hl]%andb_true_iff. destruct (_ && _); [done|].
  simpl. by rewrite Hc, IH.
Qed.

Lemma strip_no_nl l : no_nl l → no_nl (Str.strip l).
Proof. intros H. by apply rstrip_no_nl, lstrip_no_nl. Qed.

Lemma cleaned_lines_kept lines :
  Forall no_nl lines → Forall kept_line (cleaned_lines lines).
Proof.
  induction 1 as [|l lines Hl _ IH]; simpl; [done|].
  destruct (Str.is_empty (Str.strip l)) eqn:E1; [done|].
  destruct (_is_header_footer (Str.strip l)) eqn:E2; [done|].
  constructor; [|done]. split; [apply strip_stripped|].
  split; [by apply is_empty_false|]. split; [done|]. by apply strip_no_nl.
Qed.

Lemma cleaned_lines_id lines : Forall kept_line lines → cleaned_lines lines = lines.
Proof.
  induction 1 as [|l lines (Hs & Hne & Hhf & _) _ IH]; simpl; [done|].
  rewrite Hs. apply is_empty_false in Hne. by rewrite Hne, Hhf, IH.
Qed.

Lemma split_nl_line l : no_nl l → Str.split_nl l = [l].
Proof.
  unfold no_nl. induction l as [|c l IH]; simpl; [done|].
  intros [Hc Hl]%andb_true_iff. apply negb_true_iff in Hc. by rewrite Hc, IH.
Qed.

Lemma split_nl_join lines :
  Forall no_nl lines → lines ≠ [] → Str.split_nl (Str.join Str.nl lines) = lines.
Proof.
  induction 1 as [|l lines Hl Hls IH]; [done|]. intros _.
  destruct lines as [|l' lines]; [by apply split_nl_line|].
  change (Str.join Str.nl (l :: l' :: lines))
    with (l +:+ Str.nl +:+ Str.join Str.nl (l' :: lines)).
  rewrite split_nl_app, split_nl_line, IH; done.
Qed.

Lemma lstrip_length s : String.length (Str.lstrip s) <= String.length s.
Proof.
  induction s as [|c s IH]; simpl; [done|].
  destruct (Char.is_space c); simpl; lia.
Qed.

Lemma rstrip_length s : String.length (Str.rstrip s) <= String.length s.
Proof.
  induction s as [|c s IH]; simpl; [done|].
  destruct (_ && _); simpl; lia.
Qed.

Lemma stripped_head_ok l : stripped l → head_ok l.
Proof.
  unfold stripped, Str.strip. destruct l as [|c l]; [done|]. simpl.
  destruct (Char.is_space c) eqn:E; [|done]. intros H.
  pose proof (rstrip_length (Str.lstrip l)) as H1.
  pose proof (lstrip_length l) as H2.
  rewrite H in H1. simpl in H1. lia.
Qed.

Lemma stripped_rstrip l : stripped l → Str.rstrip l = l.
Proof.
  intros H. pose proof (stripped_head_ok _ H) as Hh.
  unfold stripped, Str.strip in H. by rewrite lstrip_id in H.
Qed.

Lemma rstrip_app (a b : string) :
  Str.rstrip b = b → b ≠ "" → Str.rstrip (a +:+ b) = a +:+ b.
Proof.
  intros Hb Hne. induction a as [|c a IH]; [done|].
  rewrite str_app_cons. simpl. rewrite IH.
  destruct (a +:+ b) eqn:E; [|done].
  destruct a; [|done]. by rewrite str_app_nil_l in E.
Qed.

Lemma join_kept_not_empty lines :
  Forall kept_line lines → lines ≠ [] → Str.join Str.nl lines ≠ "".
Proof.
  intros [|l ls (_ & Hne & _) _]; [done|]. intros _.
  destruct l as [|c l]; [done|]. by destruct ls.
Qed.

Lemma strip_join_kept lines :
  Forall kept_line lines → Str.strip (Str.join Str.nl lines) = Str.join Str.nl lines.
Proof.
  intros H. unfold Str.strip. rewrite lstrip_id.
  - induction H as [|l lines (Hs & Hne & _) Hls IH]; [done|].
    destruct lines as [|l' lines]; [by apply stripped_rstrip|].
    change (Str.join Str.nl (l :: l' :: lines))
      with (l +:+ Str.nl +:+ Str.join Str.nl (l' :: lines)).
    rewrite <- str_app_assoc. apply rstrip_app; [done|].
    by apply join_kept_not_empty.
  - destruct H as [|l lines (Hs & Hne & _) _]; [done|].
    apply stripped_head_ok in Hs.
    destruct l as [|c l]; [done|]. by destruct lines.
Qed.

Lemma joined_lines_join lines :
  Forall kept_line lines →
  joined_lines (Str.join Str.nl lines) = Str.join Str.nl lines.
Proof.
  intros H. unfold joined_lines. destruct lines as [|l ls]; [done|].
  rewrite split_nl_join; [by rewrite cleaned_lines_id| |done].
  eapply Forall_impl; [exact H|]. by intros ? (_ & _ & _ & ?).
Qed.

End normalising_twice.

(** ** Contradictions *)

(** The character at an index is a digit; is the letter [p], case apart. *)
Definition digit_at (n : nat) (s : string) : bool :=
  match String.get n s with
  | Some c => Char.is_digit c
  | None => false
  end.

Definition ci_at (n : nat) (p : ascii) (s : string) : bool :=
  match String.get n s with
  | Some c => Char.eqb_ci true p c
  | None => false
  end.

(** A text without digits. *)
Definition no_digit (s : string) : Prop :=
  Str.forallb (fun c => negb (Char.is_digit c)) s = true.


Section search_facts.

Implicit Types (s t u pre : string) (r : Re.regex) (ic : bool) (n j pos : nat).

Lemma get_app_l s t n :
  n < String.length s → String.get n (s +:+ t) = String.get n s.
Proof.
  revert n. induction s as [|c s IH]; intros n; simpl; [lia|].
  intros H. rewrite ?str_app_cons. destruct n as [|n]; [done|]. simpl. apply IH. lia.
Qed.

Lemma get_app_r s t n :
  String.get (String.length s + n) (s +:+ t) = String.get n t.
Proof. induction s as [|c s IH]; [done|]. by rewrite str_app_cons. Qed.

Lemma get_drop s j n : String.get n (Str.drop j s) = String.get (j + n) s.
Proof.
  revert s. induction j as [|j IH]; intros s; [done|].
  destruct s as [|c s]; simpl; [by destruct n|]. apply IH.
Qed.

Lemma digit_at_app s t n :
  digit_at n (s +:+ t) = true →
  (n < String.length s ∧ digit_at n s = true)
  ∨ (String.length s <= n ∧ digit_at (n - String.length s) t = true).
Proof.
  unfold digit_at. destruct (decide (n < String.length s)) as [H|H].
  - rewrite get_app_l by done. by left.
  - replace n with (String.length s + (n - String.length s)) at 1 by lia.
    rewrite get_app_r. right. split; [lia|done].
Qed.

Lemma digit_at_app_r s t n : digit_at (String.length s + n) (s +:+ t) = digit_at n t.
Proof. unfold digit_at. by rewrite get_app_r. Qed.

Lemma ci_at_app_r s t n p : ci_at (String.length s + n) p (s +:+ t) = ci_at n p t.
Proof. unfold ci_at. by rewrite get_app_r. Qed.

Lemma digit_at_drop s j n : digit_at n (Str.drop j s) = digit_at (j + n) s.
Proof. unfold digit_at. by rewrite get_drop. Qed.

Lemma no_digit_at s n : no_digit s → digit_at n s = false.
Proof.
  unfold no_digit, digit_at. revert n. induction s as [|c s IH]; intros n; simpl.
  - by destruct n.
  - intros [Hc Hs]%andb_true_iff. destruct n as [|n]; simpl.
    + by apply negb_true_iff.
    + by apply IH.
Qed.

Lemma drop_drop s j n : Str.drop n (Str.drop j s) = Str.drop (j + n) s.
Proof.
  revert s. induction j as [|j IH]; intros s; [done|].
  destruct s as [|c s]; simpl; [by destruct n|]. apply IH.
Qed.

(** *** Literal prefixes *)

Lemma re_run_lits ic w r cap s :
  Re.re_run ic (foldr Re.Cat r (Re.Chr <$> list_ascii_of_string w)) (cap, s) =
    if prefix_ci ic w s then Re.re_run ic r (cap, Str.drop (String.length w) s)
    else [].
Proof.
  revert s. induction w as [|c w IH]; intros s; [done|].
  change (foldr Re.Cat r (Re.Chr <$> list_ascii_of_string (String c w)))
    with (Re.Cat (Re.Chr c) (foldr Re.Cat r (Re.Chr <$> list_ascii_of_string w))).
  destruct s as [|x s]; [done|]. simpl.
  destruct (Char.eqb_ci ic c x); [|done]. simpl.
  by rewrite IH, app_nil_r.
Qed.

Lemma prefix_ci_at w s n p :
  prefix_ci true w s = true → String.get n w = Some p → ci_at n p s = true.
Proof.
  unfold ci_at. revert s n. induction w as [|c w IH]; intros s n; simpl.
  - by destruct n.
  - destruct s as [|x s]; [done|]. intros [Hc Hw]%andb_true_iff.
    destruct n as [|n]; simpl.
    + by intros [= <-].
    + by apply IH.
Qed.

Lemma grp_digits_needs ic R cap t :
  Re.re_run ic (Re.Cat (Re.Grp (Re.Cat (Re.Plus Re.Digit) Re.Eps)) R) (cap, t) ≠ [] →
  digit_at 0 t = true.
Proof.
  unfold digit_at. destruct t as [|c t]; simpl; [done|].
  by destruct (Char.is_digit c).
Qed.

Lemma opt_chr_needs ic p R cap t :
  Re.re_run ic (Re.Cat (Re.Opt (Re.Chr p)) R) (cap, t) ≠ [] →
  Re.re_run ic R (cap, t) ≠ [] ∨ Re.re_run ic R (cap, Str.drop 1 t) ≠ [].
Proof.
  simpl. destruct t as [|x t]; simpl.
  - rewrite app_nil_r. by left.
  - destruct (Char.eqb_ci ic p x); simpl.
    + rewrite app_nil_r. intros H.
      destruct (Re.re_run ic R (cap, t)); [by left|by right].
    + rewrite app_nil_r. by left.
Qed.

(** *** Where [re.search] finds its match *)

Lemma match_at_None ic r pos s :
  Re.match_at ic r pos s = None ↔ Re.re_run ic r (None, s) = [].
Proof. unfold Re.match_at. by destruct (Re.re_run ic r (None, s)). Qed.

Lemma search_from_first ic r pre u pos m :
  (∀ pre1 u1, pre +:+ u = pre1 +:+ u1 → String.length pre1 < String.length pre →
     Re.re_run ic r (None, u1) = []) →
  Re.match_at ic r (pos + String.length pre) u = Some m →
  Re.search_from ic r pos (pre +:+ u) = Some m.
Proof.
  revert pos. induction pre as [|c pre IH]; intros pos Hbefore Hm.
  - rewrite str_app_nil_l. simpl in Hm. rewrite Nat.add_0_r in Hm.
    destruct u; simpl; by rewrite Hm.
  - rewrite str_app_cons. simpl.
    assert (Re.match_at ic r pos (String c (pre +:+ u)) = None) as ->.
    { apply match_at_None, (Hbefore "" (String c (pre +:+ u))); [done|simpl; lia]. }
    apply IH.
    + intros pre1 u1 E Hlt. apply (Hbefore (String c pre1) u1).
      * by rewrite !str_app_cons, E.
      * simpl. lia.
    + simpl in Hm. by replace (S pos + String.length pre)
        with (pos + S (String.length pre)) by lia.
Qed.


(** *** Four digits in a row *)




End search_facts.

(** *** The two duration patterns *)


(** The two pairs of [CONTRADICTION_PATTERNS]. *)
Definition completion_pattern : string := "completion in (\d+) months".
Definition phases_pattern : string := "phases? spanning (\d+) months".

Definition duration_group : Re.regex := Re.Grp (Re.Cat (Re.Plus Re.Digit) Re.Eps).

Definition completion_re : Re.regex :=
  foldr Re.Cat (Re.Cat duration_group (lit " months"))
        (Re.Chr <$> list_ascii_of_string "completion in ").

Definition phases_re : Re.regex :=
  foldr Re.Cat
        (Re.Cat (Re.Opt (Re.Chr "s"))
           (foldr Re.Cat (Re.Cat duration_group (lit " months"))
                  (Re.Chr <$> list_ascii_of_string " spanning ")))
        (Re.Chr <$> list_ascii_of_string "phase").

Section durations.

Implicit Types (s t u a b c : string).

Lemma compile_completion :
  Re.compile "completion in (\d+) months" = Some completion_re.
Proof. reflexivity. Qed.

Lemma compile_phases :
  Re.compile "phases? spanning (\d+) months" = Some phases_re.
Proof. reflexivity. Qed.


Lemma completion_needs s :
  Re.re_run true completion_re (None, s) ≠ [] →
  ci_at 0 "c" s = true ∧ digit_at 14 s = true.
Proof.
  unfold completion_re. rewrite re_run_lits.
  destruct (prefix_ci true "completion in " s) eqn:E; [|done].
  intros H%grp_digits_needs. split.
  - by apply (prefix_ci_at _ _ _ _ E).
  - by rewrite digit_at_drop in H.
Qed.

Lemma phases_needs s :
  Re.re_run true phases_re (None, s) ≠ [] →
  ci_at 0 "p" s = true ∧ ci_at 1 "h" s = true ∧ ci_at 2 "a" s = true
  ∧ (digit_at 15 s = true ∨ digit_at 16 s = true).
Proof.
  unfold phases_re. rewrite re_run_lits.
  destruct (prefix_ci true "phase" s) eqn:E; [|done].
  intros [H|H]%opt_chr_needs; rewrite re_run_lits in H;
    destruct (prefix_ci true " spanning " _); try done;
    apply grp_digits_needs in H; rewrite !digit_at_drop in H;
    (split; [by apply (prefix_ci_at _ _ _ _ E)|]);
    (split; [by apply (prefix_ci_at _ _ _ _ E)|]);
    (split; [by apply (prefix_ci_at _ _ _ _ E)|]); auto.
Qed.





End durations.

Section duration_shapes.

Implicit Types (s t u a b c P Q : string).





(** The digits of a text made of two phrases set in text without digits
    are digits of the phrases. *)
Lemma shape_digits a P b Q c n :
  no_digit a → no_digit b → no_digit c →
  digit_at n (a +:+ P +:+ b +:+ Q +:+ c) = true →
  (∃ k, n = String.length a + k ∧ digit_at k P = true)
  ∨ (∃ k, n = String.length a + String.length P + String.length b + k
          ∧ digit_at k Q = true).
Proof.
  intros Ha Hb Hc.
  intros [[_ H]|[H1 H]]%digit_at_app; [by rewrite no_digit_at in H|].
  apply digit_at_app in H as [[_ H]|[H2 H]].
  { left. eexists. split; [|exact H]. lia. }
  apply digit_at_app in H as [[_ H]|[H3 H]]; [by rewrite no_digit_at in H|].
  apply digit_at_app in H as [[_ H]|[H4 H]]; [|by rewrite no_digit_at in H].
  right. eexists. split; [|exact H]. lia.
Qed.

End duration_shapes.






Section duration_search.

Implicit Types (a b c : string).


Lemma regroup a P b Q c :
  a +:+ P +:+ b +:+ Q +:+ c = (a +:+ P +:+ b) +:+ Q +:+ c.
Proof. by rewrite !str_app_assoc. Qed.







End duration_search.

Section contradiction_check.

Implicit Types (text : string) (m : Re.match_obj).


Lemma contradiction_loop_app text todo issues :
  contradiction_loop text todo issues = issues ++ mjoin (check_pair text <$> todo).
Proof.
  revert issues. induction todo as [|p todo IH]; intros issues; simpl.
  - by rewrite app_nil_r.
  - by rewrite IH, app_assoc.
Qed.

Lemma check_contradictions_pairs text :
  check_contradictions text = mjoin (check_pair text <$> CONTRADICTION_PATTERNS).
Proof. apply contradiction_loop_app. Qed.

Lemma check_pair_durations text m1 m2 :
  Re.re_search true completion_re text = Some m1 →
  Re.re_search true phases_re text = Some m2 →
  check_pair text ("completion in (\d+) months", "phases? spanning (\d+) months")
  = if bool_decide (Re.group1 m1 ≠ Re.group1 m2)
    then [contradiction_issue "completion in (\d+) months"
            "phases? spanning (\d+) months" m1 m2]
    else [].
Proof.
  intros H1 H2. unfold check_pair, Re.search.
  rewrite compile_completion, compile_phases. simpl. by rewrite H1, H2.
Qed.



End contradiction_check.

(** ** The first match of a pattern *)


Section first_matches.

Implicit Types (text pre u w s pattern : string) (r R : Re.regex) (n k : nat)
  (m : Re.match_obj).









End first_matches.




(** ** Blank lines after normalising *)

(** A text without two line feeds in a row. *)
Definition no_blank_line (text : string) : Prop :=
  Str.contains (Str.nl +:+ Str.nl) text = false.

Section blank_lines.

Implicit Types (text : string).

Lemma split_nlnl_single text : no_blank_line text → Str.split_nlnl text = [text].
Proof.
  unfold no_blank_line. induction text as [|c text IH]; [done|].
  intros H. simpl in H. apply orb_false_iff in H as [Hp Hc].
  assert (Str.split_nlnl text = [text]) as Hs by by apply IH.
  simpl. rewrite Hs. destruct text as [|c' text]; [done|].
  destruct (Ascii.eqb c "010" && Ascii.eqb c' "010") eqn:E; [|done].
  apply andb_true_iff in E as [->%Ascii.eqb_eq ->%Ascii.eqb_eq]. done.
Qed.

(** On a text without a blank line the fallback files the whole text
    under one section at most. *)
Lemma fallback_single_paragraph text :
  no_blank_line text →
  _fallback_section_extraction text =
    match classify fallback_keywords (Str.lower text) with
    | Some name => <[name := text]> empty_sections
    | None => empty_sections
    end.
Proof.
  intros H. unfold _fallback_section_extraction. rewrite (split_nlnl_single _ H).
  cbn [foldl]. unfold fallback_step.
  destruct (classify fallback_keywords (Str.lower text)) as [name|] eqn:E; [|done].
  unfold add_paragraph.
  assert (empty_sections !!! name = "") as ->; [|done].
  apply lookup_total_correct, lookup_empty_sections.
  rewrite <- fallback_keywords_names. by eapply classify_elem.
Qed.

End blank_lines.

(** C8 fails on the code.  [clean_text] drops the lines that are empty
    when it reads them, and only afterwards deletes the characters outside
    the allowed set: a line made of such characters alone is left as an
    empty line.  The fallback then sees two paragraphs and fills two
    sections. *)
Theorem clean_text_leaves_blank_line :
  let raw := Str.join Str.nl ["Overview of the scope"; "====="; "Expected timeline"] in
  let cleaned := clean_text raw in
  cleaned = "Overview of the scope" +:+ Str.nl +:+ Str.nl +:+ "Expected timeline"
  ∧ Str.split_nlnl cleaned = ["Overview of the scope"; "Expected timeline"]
  ∧ any_value (primary_sections cleaned) = false
  ∧ extract_sections cleaned !! "scope" = Some "Overview of the scope"
  ∧ extract_sections cleaned !! "timeline" = Some "Expected timeline".
Proof. vm_compute. split_and!; reflexivity. Qed.

(** * Further properties of the code *)

(** ** What [clean_text] returns *)

(** The characters the second substitution keeps. *)
Definition allowed_char (c : ascii) : bool := negb (Re.cls_mem Re.Special c).

Definition not_tab (c : ascii) : bool := negb (Ascii.eqb c "009").

(** A blank character of the text is a space. *)
Definition blank_is_space (c : ascii) : bool :=
  negb (Char.is_blank c) || Ascii.eqb c " ".

Section clean_text_result.

Implicit Types (s text : string) (f : ascii → bool).

Lemma forallb_app f s t :
  Str.forallb f (s +:+ t) = Str.forallb f s && Str.forallb f t.
Proof.
  induction s as [|c s IH]; [done|]. rewrite str_app_cons. simpl.
  by rewrite IH, andb_assoc.
Qed.

Lemma lstrip_forallb f s : Str.forallb f s = true → Str.forallb f (Str.lstrip s) = true.
Proof.
  induction s as [|c s IH]; simpl; [done|].
  intros [Hc Hs]%andb_true_iff. destruct (Char.is_space c); [by apply IH|].
  simpl. by rewrite Hc, Hs.
Qed.

Lemma rstrip_forallb f s : Str.forallb f s = true → Str.forallb f (Str.rstrip s) = true.
Proof.
  induction s as [|c s IH]; simpl; [done|].
  intros [Hc Hs]%andb_true_iff. destruct (_ && _); [done|].
  simpl. by rewrite Hc, IH.
Qed.

Lemma strip_forallb f s : Str.forallb f s = true → Str.forallb f (Str.strip s) = true.
Proof. intros H. by apply rstrip_forallb, lstrip_forallb. Qed.

Lemma filter_forallb f s : Str.forallb f (Str.filter f s) = true.
Proof.
  induction s as [|c s IH]; simpl; [done|].
  destruct (f c) eqn:E; [|done]. simpl. by rewrite E, IH.
Qed.

Lemma filter_keeps_forallb f g s :
  Str.forallb g s = true → Str.forallb g (Str.filter f s) = true.
Proof.
  induction s as [|c s IH]; simpl; [done|].
  intros [Hc Hs]%andb_true_iff. destruct (f c); [|by apply IH].
  simpl. by rewrite Hc, IH.
Qed.

(** The second substitution deletes the characters of the class and
    nothing else. *)
Lemma sub_cls_filter k s :
  Re.re_sub (Re.Cls k) "" s = Str.filter (fun c => negb (Re.cls_mem k c)) s.
Proof.
  unfold Re.re_sub. induction s as [|c s IH]; [done|].
  simpl. unfold Re.re_match, Re.match_at. simpl.
  destruct (Re.cls_mem k c); simpl.
  - replace (S (String.length s) - String.length s) with 1 by lia. simpl.
    by rewrite IH.
  - by rewrite IH.
Qed.

Lemma remove_special_filter s : remove_special s = Str.filter allowed_char s.
Proof. apply sub_cls_filter. Qed.

Lemma star_cls_not_nil k s : Re.star_cls k s ≠ [].
Proof.
  destruct s as [|c s]; simpl; [done|].
  intros [_ H]%app_eq_nil. done.
Qed.

(** A match of [k+] is not empty. *)
Lemma plus_match_end k c s m :
  Re.re_match false (Re.Plus k) (String c s) = Some m → ∃ n, Re.m_end m = S n.
Proof.
  unfold Re.re_match, Re.match_at. simpl.
  destruct (Re.cls_mem k c); [|done].
  destruct (Re.star_cls k s) as [|rest l] eqn:E; [done|]. simpl.
  intros [= <-]. simpl.
  assert (rest ∈ Re.star_cls k s) as [pre ->]%star_cls_suffix
    by (rewrite E; apply elem_of_cons; by left).
  exists (String.length pre). rewrite str_app_length. lia.
Qed.

Lemma plus_match_first k c s m :
  Re.re_match false (Re.Plus k) (String c s) = Some m → Re.cls_mem k c = true.
Proof.
  unfold Re.re_match, Re.match_at. simpl. by destruct (Re.cls_mem k c).
Qed.

Lemma plus_match_none k c s :
  Re.re_match false (Re.Plus k) (String c s) = None → Re.cls_mem k c = false.
Proof.
  unfold Re.re_match, Re.match_at. simpl. destruct (Re.cls_mem k c); [|done].
  destruct (Re.star_cls k s) as [|rest l] eqn:E; [|done].
  by apply star_cls_not_nil in E.
Qed.

(** After the first substitution every blank character is a space. *)
Lemma sub_go_blank skip s :
  Str.forallb blank_is_space (Re.sub_go (Re.Plus Re.Blank) " " skip s) = true.
Proof.
  revert skip. induction s as [|c s IH]; intros skip; [done|].
  cbn [Re.sub_go]. destruct skip as [|k]; [|apply IH].
  destruct (Re.re_match false (Re.Plus Re.Blank) (String c s)) as [m|] eqn:E.
  - destruct (plus_match_end _ _ _ _ E) as [n ->].
    rewrite forallb_app, IH. done.
  - apply plus_match_none in E. simpl in E.
    cbn [Str.forallb]. rewrite IH, andb_true_r.
    unfold blank_is_space. by rewrite E.
Qed.

Lemma normalize_whitespace_blank s :
  Str.forallb blank_is_space (normalize_whitespace s) = true.
Proof. apply sub_go_blank. Qed.

End clean_text_result.

(** X1.  Whatever the input, the text [clean_text] returns holds only
    characters of the allowed set (word characters, white space and the
    punctuation [.,;:!?-()[]{}]), holds no tab (every blank character in
    it is a space), and neither starts nor ends with white space. *)
Theorem clean_text_characters (text : string) :
  Str.forallb allowed_char (clean_text text) = true
  ∧ Str.forallb not_tab (clean_text text) = true
  ∧ Str.strip (clean_text text) = clean_text text
  ∧ head_ok (clean_text text).
Proof.
  unfold clean_text. destruct (Str.is_empty text); [done|].
  split; [|split; [|split]].
  - apply strip_forallb. rewrite remove_special_filter. apply filter_forallb.
  - assert (∀ s, Str.forallb blank_is_space s = true → Str.forallb not_tab s = true)
      as Hweak.
    { induction s as [|c s IH]; simpl; [done|].
      intros [Hc Hs]%andb_true_iff. rewrite IH by done. rewrite andb_true_r.
      unfold blank_is_space, not_tab in *.
      destruct (Ascii.eqb c "009") eqn:E; [|done].
      apply Ascii.eqb_eq in E. subst c. by vm_compute in Hc. }
    apply Hweak, strip_forallb. rewrite remove_special_filter.
    apply filter_keeps_forallb, normalize_whitespace_blank.
  - apply strip_idemp.
  - apply rstrip_head_ok, lstrip_head_ok.
Qed.

Section whitespace_only.

Implicit Types (s text : string).

Lemma lstrip_spaces s : Str.forallb Char.is_space s = true → Str.lstrip s = "".
Proof.
  induction s as [|c s IH]; simpl; [done|].
  intros [-> Hs]%andb_true_iff. by apply IH.
Qed.

Lemma split_nl_spaces s :
  Str.forallb Char.is_space s = true →
  Forall (fun l => Str.forallb Char.is_space l = true) (Str.split_nl s).
Proof.
  induction s as [|c s IH]; simpl.
  - by repeat constructor.
  - intros [Hc Hs]%andb_true_iff. specialize (IH Hs).
    destruct (Ascii.eqb c "010"); [by constructor|].
    destruct (Str.split_nl s) as [|l ls].
    + constructor; [|done]. simpl. by rewrite Hc.
    + apply Forall_cons in IH as [Hl Hls]. constructor; [|done].
      simpl. by rewrite Hc, Hl.
Qed.

Lemma cleaned_lines_spaces (lines : list string) :
  Forall (fun l => Str.forallb Char.is_space l = true) lines →
  cleaned_lines lines = [].
Proof.
  induction 1 as [|l lines Hl _ IH]; simpl; [done|].
  unfold Str.strip. by rewrite (lstrip_spaces _ Hl).
Qed.

End whitespace_only.

(** X2.  A text made of white space alone (spaces, tabs, line feeds and
    the like, or nothing) is cleaned to the empty text. *)
Theorem clean_text_whitespace (text : string) :
  Str.forallb Char.is_space text = true → clean_text text = "".
Proof.
  intros H. unfold clean_text. destruct (Str.is_empty text); [done|].
  unfold joined_lines.
  by rewrite (cleaned_lines_spaces _ (split_nl_spaces _ H)).
Qed.

Lemma clean_text_whitespace_witness :
  clean_text ("  " +:+ Str.nl +:+ String "009" " " +:+ Str.nl) = "".
Proof. apply clean_text_whitespace. reflexivity. Defined.

(** ** Normalising a normalised text *)

(** A line the loop of [clean_text] keeps as it is. *)
Definition settled_line (l : string) : Prop :=
  l ≠ "" ∧ Str.strip l = l ∧ _is_header_footer l = false.

Section second_pass.

Implicit Types (s text : string) (l : string) (lines : list string).

Lemma join_split s : Str.join Str.nl (Str.split_nl s) = s.
Proof.
  induction s as [|c s IH]; [done|]. simpl.
  pose proof (split_nl_not_nil s) as Hne.
  destruct (Ascii.eqb c "010") eqn:E.
  - apply Ascii.eqb_eq in E. subst c.
    destruct (Str.split_nl s) as [|l ls]; [done|].
    change (Str.join Str.nl ("" :: l :: ls)) with (Str.nl +:+ Str.join Str.nl (l :: ls)).
    by rewrite IH.
  - destruct (Str.split_nl s) as [|l ls]; [done|].
    destruct ls as [|l' ls]; [simpl in *; by rewrite IH|].
    change (Str.join Str.nl (String c l :: l' :: ls))
      with (String c (Str.join Str.nl (l :: l' :: ls))).
    by rewrite IH.
Qed.

Lemma filter_all f s : Str.forallb f s = true → Str.filter f s = s.
Proof.
  induction s as [|c s IH]; simpl; [done|].
  intros [-> Hs]%andb_true_iff. by rewrite IH.
Qed.

Lemma remove_special_allowed s :
  Str.forallb allowed_char s = true → remove_special s = s.
Proof. intros H. rewrite remove_special_filter. by apply filter_all. Qed.

(** The first substitution changes nothing in a text without a tab and
    without two spaces in a row. *)
Lemma normalize_whitespace_single s :
  Str.forallb not_tab s = true → Str.contains "  " s = false →
  normalize_whitespace s = s.
Proof.
  unfold normalize_whitespace, Re.re_sub.
  induction s as [|c s IH]; [done|].
  intros Ht Hc. cbn [Str.forallb] in Ht. apply andb_true_iff in Ht as [Htc Hts].
  cbn [Str.contains] in Hc. apply orb_false_iff in Hc as [Hp Hcs].
  specialize (IH Hts Hcs). cbn [Re.sub_go].
  unfold Re.re_match, Re.match_at. cbn [Re.re_run snd fst Re.plus_cls].
  change (Re.cls_mem Re.Blank c) with (Char.is_blank c).
  destruct (Char.is_blank c) eqn:Eb; cbn [fmap list_fmap].
  - assert (c = " "%char) as ->.
    { unfold Char.is_blank in Eb. unfold not_tab in Htc.
      apply orb_true_iff in Eb as [Eb|Eb].
      - apply N.eqb_eq in Eb. rewrite <- (ascii_N_embedding c). unfold Char.code in Eb.
        by rewrite Eb.
      - apply N.eqb_eq in Eb. apply negb_true_iff, Ascii.eqb_neq in Htc.
        destruct Htc. rewrite <- (ascii_N_embedding c). unfold Char.code in Eb.
        by rewrite Eb. }
    assert (Re.star_cls Re.Blank s = [s]) as ->.
    { destruct s as [|d s]; [done|]. simpl.
      cbn [Str.is_prefix] in Hp. simpl in Hp.
      cbn [Str.forallb] in Hts. apply andb_true_iff in Hts as [Htd _].
      assert (Char.is_blank d = false) as ->; [|done].
      unfold Char.is_blank. apply orb_false_iff. split.
      - apply N.eqb_neq. intros E. unfold Char.code in E.
        assert (d = " "%char) as -> by (by rewrite <- (ascii_N_embedding d), E).
        by vm_compute in Hp.
      - apply N.eqb_neq. intros E. unfold Char.code in E.
        assert (d = "009"%char) as -> by (by rewrite <- (ascii_N_embedding d), E).
        by vm_compute in Htd. }
    rewrite list_fmap_singleton. cbn [fst snd Re.m_end].
    replace (String.length (String " " s) - String.length s) with 1
      by (cbn [String.length]; lia).
    cbn [Re.m_end Nat.add]. rewrite IH. reflexivity.
  - by rewrite IH.
Qed.

(** A text of settled lines, without a tab, without two spaces in a row
    and made of allowed characters, is cleaned to itself. *)
Lemma clean_text_settled text :
  Forall settled_line (Str.split_nl text) →
  Str.forallb not_tab text = true → Str.contains "  " text = false →
  Str.forallb allowed_char text = true →
  clean_text text = text.
Proof.
  intros Hl Ht Hc Ha. unfold clean_text.
  destruct (Str.is_empty text) eqn:E; [symmetry; by apply is_empty_true|].
  assert (Forall kept_line (Str.split_nl text)) as Hk.
  { pose proof (split_nl_no_nl text) as Hn.
    rewrite Forall_forall in Hl, Hn. apply Forall_forall. intros l Hin.
    destruct (Hl l Hin) as (H1 & H2 & H3). by split_and!; [|..|apply Hn]. }
  assert (joined_lines text = text) as ->.
  { unfold joined_lines. by rewrite cleaned_lines_id, join_split. }
  rewrite normalize_whitespace_single, remove_special_allowed by done.
  rewrite <- (join_split text). by apply strip_join_kept.
Qed.

Lemma clean_text_no_tab text : Str.forallb not_tab (clean_text text) = true.
Proof.
  unfold clean_text. destruct (Str.is_empty text); [done|].
  assert (∀ s, Str.forallb blank_is_space s = true → Str.forallb not_tab s = true)
    as Hweak.
  { induction s as [|c s IH]; simpl; [done|].
    intros [Hc Hs]%andb_true_iff. rewrite IH by done. rewrite andb_true_r.
    unfold blank_is_space, not_tab in *.
    destruct (Ascii.eqb c "009") eqn:E; [|done].
    apply Ascii.eqb_eq in E. subst c. by vm_compute in Hc. }
  apply Hweak, strip_forallb. rewrite remove_special_filter.
  apply filter_keeps_forallb, normalize_whitespace_blank.
Qed.

Lemma clean_text_allowed text : Str.forallb allowed_char (clean_text text) = true.
Proof.
  unfold clean_text. destruct (Str.is_empty text); [done|].
  apply strip_forallb. rewrite remove_special_filter. apply filter_forallb.
Qed.

End second_pass.

(** C2 fails on the code.  [clean_text] strips the lines, drops the empty
    ones and the headers and footers, and only then collapses the blanks
    and deletes the characters outside the allowed set; the lines are not
    looked at again.  So its result can hold a line the loop would drop or
    strip, or two spaces in a row, and a second pass changes it: a line
    that becomes a footer once its blanks are collapsed; two spaces left
    where a character between them was deleted; a line left with a space
    in front.  A second pass changes nothing when the result holds no such
    thing: when its lines are not empty, stripped and neither header nor
    footer, and it holds no two spaces in a row. *)
Theorem clean_text_not_idempotent :
  (clean_text "page  1" = "page 1" ∧ clean_text "page 1" = "")
  ∧ (clean_text "Cost: $ 100" = "Cost:  100" ∧ clean_text "Cost:  100" = "Cost: 100")
  ∧ (clean_text ("Fee" +:+ Str.nl +:+ "$ 100") = "Fee" +:+ Str.nl +:+ " 100"
     ∧ clean_text ("Fee" +:+ Str.nl +:+ " 100") = "Fee" +:+ Str.nl +:+ "100")
  ∧ ¬ (∀ text, clean_text (clean_text text) = clean_text text)
  ∧ (∀ text,
       Forall settled_line (Str.split_nl (clean_text text)) →
       Str.contains "  " (clean_text text) = false →
       clean_text (clean_text text) = clean_text text).
Proof.
  split_and!; try reflexivity.
  - intros H. specialize (H "page  1"). vm_compute in H. discriminate.
  - intros text Hl Hc. apply clean_text_settled; [done| |done|].
    + apply clean_text_no_tab.
    + apply clean_text_allowed.
Qed.

Lemma clean_text_not_idempotent_witness :
  let text := Str.join Str.nl
                ["  COSTS"; "Estimated at $1,000,000."; ""; "PAYMENT TERMS ";
                 "50% upfront, 50% on completion."] in
  clean_text text
  = Str.join Str.nl
      ["COSTS"; "Estimated at 1,000,000."; "PAYMENT TERMS";
       "50 upfront, 50 on completion."]
  ∧ clean_text (clean_text text) = clean_text text.
Proof.
  intros text. split; [reflexivity|].
  destruct clean_text_not_idempotent as (_ & _ & _ & _ & H).
  apply (H text).
  - apply (bool_decide_unpack _). by vm_compute.
  - reflexivity.
Defined.

(** ** The header and footer filter *)

(** The patterns of [common_headers] and [common_footers] that are plain
    words. *)
Definition literal_marks : list string :=
  [ "confidential"; "draft"; "proprietary"; "prepared by:"; "approved by:";
    "date:"; "revision:" ].

(** The pattern [page \d+]. *)
Definition page_re : Re.regex :=
  foldr Re.Cat (Re.Cat (Re.Plus Re.Digit) Re.Eps)
        (Re.Chr <$> list_ascii_of_string "page ").

Section header_footer.

Implicit Types (w s line : string).

Lemma contains_spec w s :
  Str.contains w s = true ↔ ∃ pre post, s = pre +:+ post ∧ Str.is_prefix w post = true.
Proof.
  induction s as [|c s IH]; simpl.
  - rewrite orb_false_r. split.
    + intros H. by exists "", "".
    + intros ([|??] & post & E & H); [|done].
      rewrite str_app_nil_l in E. by subst post.
  - rewrite orb_true_iff, IH. split.
    + intros [H|(pre & post & -> & H)].
      * by exists "", (String c s).
      * by exists (String c pre), post.
    + intros ([|x pre] & post & E & H).
      * rewrite str_app_nil_l in E. subst post. by left.
      * rewrite str_app_cons in E. injection E as <- ->. right. by exists pre, post.
Qed.

Lemma prefix_ci_exact w s : prefix_ci false w s = Str.is_prefix w s.
Proof.
  revert s. induction w as [|a w IH]; intros [|b s]; simpl; try done.
  by rewrite IH.
Qed.

Lemma search_lit_contains w s :
  is_Some (Re.re_search false (lit w) s) ↔ Str.contains w s = true.
Proof.
  unfold Re.re_search. rewrite search_from_lit, contains_spec.
  by setoid_rewrite prefix_ci_exact.
Qed.

Lemma literal_marks_compile w :
  w ∈ literal_marks →
  Re.compile w = Some (lit w) ∧ w ∈ common_headers ++ common_footers.
Proof.
  unfold literal_marks. rewrite !elem_of_cons, elem_of_nil.
  intros H. repeat (destruct H as [->|H]; [split; [reflexivity|]|]); try done;
    unfold common_headers, common_footers; simpl; rewrite !elem_of_cons; tauto.
Qed.

Lemma is_header_footer_true line pattern :
  pattern ∈ common_headers ++ common_footers →
  is_Some (Re.search false pattern (Str.lower line)) →
  _is_header_footer line = true.
Proof.
  intros [Hin|Hin]%elem_of_app Hs; unfold _is_header_footer; apply orb_true_iff;
    [left|right]; apply existsb_exists; exists pattern;
    (split; [by apply list_elem_of_In|by apply bool_decide_eq_true_2]).
Qed.

Lemma char_lower_idemp (c : ascii) : Char.lower (Char.lower c) = Char.lower c.
Proof. by destruct c as [[] [] [] [] [] [] [] []]. Qed.

Lemma lower_idemp s : Str.lower (Str.lower s) = Str.lower s.
Proof.
  unfold Str.lower. induction s as [|c s IH]; simpl; [done|].
  by rewrite char_lower_idemp, IH.
Qed.

Lemma search_from_exists ic r pre u pos :
  Re.re_run ic r (None, u) ≠ [] →
  is_Some (Re.search_from ic r pos (pre +:+ u)).
Proof.
  intros Hu. revert pos. induction pre as [|c pre IH]; intros pos.
  - rewrite str_app_nil_l.
    assert (is_Some (Re.match_at ic r pos u)) as [m Hm].
    { destruct (Re.match_at ic r pos u) eqn:E; [by eexists|].
      by apply match_at_None in E. }
    destruct u; simpl; rewrite Hm; by eexists.
  - rewrite str_app_cons. simpl.
    destruct (Re.match_at ic r pos _); [by eexists|]. apply IH.
Qed.

Lemma compile_page : Re.compile "page \d+" = Some page_re.
Proof. reflexivity. Qed.

Lemma page_number_found s pre d post :
  s = pre +:+ "page " +:+ String d post → Char.is_digit d = true →
  is_Some (Re.search false "page \d+" s).
Proof.
  intros -> Hd. unfold Re.search. rewrite compile_page. simpl.
  apply search_from_exists. unfold page_re. rewrite re_run_lits.
  replace (prefix_ci false "page " ("page " +:+ String d post)) with true
    by reflexivity.
  replace (Str.drop (String.length "page ") ("page " +:+ String d post))
    with (String d post) by reflexivity.
  simpl. rewrite Hd.
  destruct (Re.star_cls Re.Digit post) as [|x l] eqn:E; [|done].
  by apply star_cls_not_nil in E.
Qed.

End header_footer.

(** X3.  The header and footer test ignores letter case and looks anywhere
    in the line: a line that holds one of the words "confidential",
    "draft", "proprietary", "prepared by:", "approved by:", "date:" or
    "revision:", or "page " followed by a digit, is taken for a header or
    footer, whatever else the line says. *)
Theorem is_header_footer_anywhere (line : string) :
  (∀ w, w ∈ literal_marks → Str.contains w (Str.lower line) = true →
        _is_header_footer line = true)
  ∧ (∀ pre d post, Str.lower line = pre +:+ "page " +:+ String d post →
        Char.is_digit d = true → _is_header_footer line = true)
  ∧ _is_header_footer (Str.lower line) = _is_header_footer line.
Proof.
  split; [|split].
  - intros w Hw Hc. destruct (literal_marks_compile w Hw) as [Hcomp Hin].
    apply (is_header_footer_true _ w Hin). unfold Re.search. rewrite Hcomp.
    simpl. by apply search_lit_contains.
  - intros pre d post E Hd. apply (is_header_footer_true _ "page \d+").
    + unfold common_headers, common_footers. simpl. rewrite !elem_of_cons. tauto.
    + by eapply page_number_found.
  - unfold _is_header_footer. by rewrite lower_idemp.
Qed.

Lemma is_header_footer_anywhere_witness :
  _is_header_footer "The contractor shall DRAFT a plan" = true
  ∧ _is_header_footer "See the drawing on page 3 of the annex" = true.
Proof.
  split.
  - destruct (is_header_footer_anywhere "The contractor shall DRAFT a plan") as (H & _).
    apply (H "draft"); [|reflexivity]. vm_compute. right. left.
  - destruct (is_header_footer_anywhere "See the drawing on page 3 of the annex")
      as (_ & H & _).
    apply (H "see the drawing on " "3"%char " of the annex"); reflexivity.
Defined.

(** X4.  Every line [clean_text] keeps is stripped, not empty, not a
    header or footer, and so holds none of those words in any letter case;
    the kept lines are lines of the input, stripped, in their order. *)
Theorem cleaned_lines_filtered (text : string) :
  (∀ l, l ∈ cleaned_lines (Str.split_nl text) →
     l ≠ "" ∧ Str.strip l = l ∧ _is_header_footer l = false
     ∧ ∀ w, w ∈ literal_marks → Str.contains w (Str.lower l) = false)
  ∧ cleaned_lines (Str.split_nl text) `sublist_of` Str.strip <$> Str.split_nl text.
Proof.
  split.
  - intros l Hl.
    pose proof (cleaned_lines_kept _ (split_nl_no_nl text)) as Hk.
    rewrite Forall_forall in Hk. destruct (Hk l Hl) as (Hs & Hne & Hhf & _).
    split; [done|]. split; [done|]. split; [done|].
    intros w Hw. destruct (Str.contains w (Str.lower l)) eqn:E; [|done].
    destruct (is_header_footer_anywhere l) as (H & _).
    rewrite (H w Hw E) in Hhf. done.
  - induction (Str.split_nl text) as [|l ls IH]; simpl; [done|].
    destruct (Str.is_empty (Str.strip l)); [by apply sublist_cons|].
    destruct (_is_header_footer (Str.strip l)); [by apply sublist_cons|].
    by apply sublist_skip.
Qed.

Lemma cleaned_lines_filtered_witness :
  let text := Str.join Str.nl ["Scope of work"; "DRAFT for review"; "  All works.  "] in
  "All works." ≠ "" ∧ _is_header_footer "All works." = false.
Proof.
  intros text.
  destruct (cleaned_lines_filtered text) as (H & _).
  destruct (H "All works.") as (H1 & _ & H3 & _); [|by split].
  vm_compute. right. left.
Defined.

(** ** Header words at the start of a line *)

Global Instance cls_eq_dec : EqDecision Re.cls.
Proof. solve_decision. Defined.

Global Instance regex_eq_dec : EqDecision Re.regex.
Proof. solve_decision. Defined.

Section header_words.

Implicit Types (w line name : string).

(** The header patterns that are plain words are read as such. *)
Lemma header_words_compile w :
  w ∈ mjoin section_headers.*2 → Str.forallb Char.is_alpha w = true →
  Re.compile w = Some (lit w) ∧ w ≠ "".
Proof.
  assert (Forall (fun w => Str.forallb Char.is_alpha w = true →
                           Re.compile w = Some (lit w) ∧ w ≠ "")
                 (mjoin section_headers.*2)) as H.
  { apply (bool_decide_unpack _). by vm_compute. }
  rewrite Forall_forall in H. apply H.
Qed.

Lemma match_lit_prefix w line :
  prefix_ci true w line = true → is_Some (Re.re_match true (lit w) line).
Proof.
  intros H. unfold Re.re_match, Re.match_at. rewrite re_run_lit, H. by eexists.
Qed.

End header_words.

(** X5.  The header patterns are tried at the start of the line with no
    test for the end of the word: a line that begins, letter case apart,
    with one of the plain header words of the table ("scope", "cost",
    "result", "product", ...) is taken for a header line of some section,
    whatever follows the word, and opens that section. *)
Theorem header_word_opens_section (line name w : string) (patterns : list string) :
  (name, patterns) ∈ section_headers → w ∈ patterns →
  Str.forallb Char.is_alpha w = true →
  prefix_ci true w (Str.strip line) = true →
  (∃ n p, find_section section_headers (Str.strip line) = Some (n, p))
  ∧ (∃ n, recognised line = Some n
          ∧ ∀ st, step st line =
                    SegState (save_section st) (Some n)
                             (header_content n (Str.strip line))).
Proof.
  intros Hin Hw Halpha Hpre.
  assert (w ∈ mjoin section_headers.*2) as Hall.
  { apply list_elem_of_join. exists patterns. split; [done|].
    apply list_elem_of_fmap. by exists (name, patterns). }
  destruct (header_words_compile w Hall Halpha) as [Hcomp Hne].
  destruct (find_section section_headers (Str.strip line)) as [[n p]|] eqn:E.
  - split; [by exists n, p|].
    assert (recognised line = Some n) as Hr.
    { unfold recognised. rewrite E.
      destruct (Str.is_empty (Str.strip line)) eqn:Ee; [|reflexivity].
      apply is_empty_true in Ee. rewrite Ee in Hpre.
      destruct w; [congruence|discriminate Hpre]. }
    exists n. split; [done|]. intros st. by apply step_header.
  - exfalso. rewrite find_section_None in E.
    specialize (E name patterns w Hin Hw).
    unfold Re.match_ in E. rewrite Hcomp in E. simpl in E.
    destruct (match_lit_prefix w _ Hpre) as [m Hm]. congruence.
Qed.

Lemma header_word_opens_section_witness :
  recognised "Budgets may change." = Some "costs"
  ∧ header_content "costs" "Budgets may change." = ["s may change."].
Proof.
  destruct (header_word_opens_section "Budgets may change." "costs" "budget"
              ["costs?"; "budget"; "pricing"; "estimate"; "financial";
               "cost\s+breakdown"; "budgetary"]) as (_ & n & Hn & _).
  - vm_compute. do 4 right. left.
  - vm_compute. right. left.
  - reflexivity.
  - reflexivity.
  - split; reflexivity.
Defined.

(** ** What the fallback files under a section *)

(** The separator of paragraphs: two line feeds. *)
Definition blank_line : string := Str.nl +:+ Str.nl.

(** The paragraph takes the branch of [name] in the chain. *)
Definition filed_under (name paragraph : string) : Prop :=
  classify fallback_keywords (Str.lower paragraph) = Some name.

Global Instance filed_under_dec (name paragraph : string) :
  Decision (filed_under name paragraph).
Proof. unfold filed_under. apply _. Defined.

Section fallback_bodies.

Implicit Types (secs : gmap string string) (name p sep : string)
               (acc ps : list string).

Lemma join_nonempty sep acc :
  Forall (fun x => x ≠ "") acc → acc ≠ [] → Str.join sep acc ≠ "".
Proof.
  intros [|x xs Hx _]; [done|]. intros _.
  destruct x as [|c x]; [done|]. by destruct xs.
Qed.

Lemma join_snoc sep acc p :
  acc ≠ [] → Str.join sep (acc ++ [p]) = Str.join sep acc +:+ sep +:+ p.
Proof.
  induction acc as [|x acc IH]; [done|]. intros _.
  destruct acc as [|y acc]; [done|].
  change (Str.join sep ((x :: y :: acc) ++ [p]))
    with (x +:+ sep +:+ Str.join sep ((y :: acc) ++ [p])).
  rewrite IH by done.
  change (Str.join sep (x :: y :: acc)) with (x +:+ sep +:+ Str.join sep (y :: acc)).
  by rewrite !str_app_assoc.
Qed.

Lemma filed_under_nonempty name p : filed_under name p → p ≠ "".
Proof. intros H ->. by vm_compute in H. Qed.

Lemma foldl_fallback_body name ps secs acc :
  secs !! name = Some (Str.join blank_line acc) →
  Forall (fun x => x ≠ "") acc →
  foldl fallback_step secs ps !! name
  = Some (Str.join blank_line (acc ++ filter (filed_under name) ps)).
Proof.
  revert secs acc. induction ps as [|p ps IH]; intros secs acc Hs Hacc.
  - simpl. by rewrite app_nil_r.
  - cbn [foldl]. rewrite filter_cons. unfold fallback_step at 2.
    destruct (classify fallback_keywords (Str.lower p)) as [n|] eqn:E.
    + destruct (decide (n = name)) as [->|Hne].
      * rewrite decide_True by done.
        rewrite (IH _ (acc ++ [p])).
        -- by rewrite <- app_assoc.
        -- unfold add_paragraph. rewrite (lookup_total_correct _ _ _ Hs).
           destruct acc as [|x acc].
           ++ simpl. by rewrite lookup_insert_eq.
           ++ assert (Str.truthy (Str.join blank_line (x :: acc)) = true) as ->.
              { apply truthy_true. by apply join_nonempty. }
              rewrite lookup_insert_eq, join_snoc by done.
              unfold blank_line. by rewrite !str_app_assoc.
        -- apply Forall_app. split; [done|]. constructor; [|done].
           by apply (filed_under_nonempty name).
      * rewrite decide_False by (unfold filed_under; congruence).
        apply IH; [|done]. by rewrite add_paragraph_other.
    + rewrite decide_False by (unfold filed_under; congruence).
      by apply IH.
Qed.

End fallback_bodies.

(** X6.  The fallback gives every section the paragraphs of the text that
    take the section's branch, in their order, joined by a blank line; a
    paragraph takes one branch at most, the first whose keywords it holds,
    and a paragraph that takes none is left out. *)
Theorem fallback_section_bodies (text name : string) :
  name ∈ section_names →
  _fallback_section_extraction text !! name
  = Some (Str.join blank_line (filter (filed_under name) (Str.split_nlnl text))).
Proof.
  intros Hn. unfold _fallback_section_extraction.
  rewrite (foldl_fallback_body name _ _ []); [done| |done].
  by apply lookup_empty_sections.
Qed.

Lemma fallback_section_bodies_witness :
  let text := "The scope is wide." +:+ blank_line +:+ "Timeline: one year."
              +:+ blank_line +:+ "Out of scope: demolition." in
  _fallback_section_extraction text !! "scope"
  = Some ("The scope is wide." +:+ blank_line +:+ "Out of scope: demolition.").
Proof.
  intros text. rewrite (fallback_section_bodies text "scope").
  - reflexivity.
  - vm_compute. right. left.
Defined.

(** X7.  On a text without a blank line the fallback files the whole
    text, headers and all, under one section at most: two sections that it
    leaves non-empty are the same section, and its text is the input. *)
Theorem fallback_one_section (text name1 name2 body1 body2 : string) :
  no_blank_line text →
  _fallback_section_extraction text !! name1 = Some body1 → body1 ≠ "" →
  _fallback_section_extraction text !! name2 = Some body2 → body2 ≠ "" →
  name1 = name2 ∧ body1 = text ∧ filed_under name1 text.
Proof.
  assert (∀ name body, empty_sections !! name = Some body → body = "") as Hempty.
  { intros name body H.
    assert (name ∈ section_names) as Hin.
    { apply elem_of_names_set. rewrite <- dom_empty_sections.
      apply elem_of_dom. by eexists. }
    rewrite lookup_empty_sections in H by done. congruence. }
  intros Hb. rewrite (fallback_single_paragraph _ Hb). unfold filed_under.
  destruct (classify fallback_keywords (Str.lower text)) as [n|].
  - intros H1 Hne1 H2 Hne2.
    destruct (decide (n = name1)) as [E1|Hn1].
    + destruct (decide (n = name2)) as [E2|Hn2].
      * subst name1 name2. rewrite lookup_insert_eq in H1. by injection H1 as ->.
      * rewrite lookup_insert_ne in H2 by done. by apply Hempty in H2.
    + rewrite lookup_insert_ne in H1 by done. by apply Hempty in H1.
  - intros H1 Hne1. by apply Hempty in H1.
Qed.

Lemma fallback_one_section_witness :
  let text := "SCOPE" +:+ Str.nl +:+ "TIMELINE" in
  "scope" = "scope" ∧ text = text ∧ filed_under "scope" text.
Proof.
  intros text.
  apply (fallback_one_section text "scope" "scope" text text);
    first [reflexivity | discriminate].
Defined.

(** ** The bodies the loop stores *)

(** A line of a body: not empty, stripped, without a line feed. *)
Definition body_line (l : string) : Prop := l ≠ "" ∧ Str.strip l = l ∧ no_nl l.

(** A body: nothing, or body lines joined by line feeds. *)
Definition body_ok (v : string) : Prop :=
  v = "" ∨ ∃ content, content ≠ [] ∧ Forall body_line content
                      ∧ v = Str.join Str.nl content.

Section stored_bodies.

Implicit Types (st : seg_state) (l line v : string) (content lines : list string).

Lemma drop_no_nl n l : no_nl l → no_nl (Str.drop n l).
Proof.
  unfold no_nl. revert l. induction n as [|n IH]; intros l; [done|].
  destruct l as [|c l]; simpl; [done|]. intros [_ H]%andb_true_iff. by apply IH.
Qed.

Lemma strip_join_body content :
  Forall body_line content →
  Str.strip (Str.join Str.nl content) = Str.join Str.nl content.
Proof.
  intros H. unfold Str.strip. rewrite lstrip_id.
  - induction H as [|l ls (Hne & Hs & _) Hls IH]; [done|].
    destruct ls as [|l' ls]; [by apply stripped_rstrip|].
    change (Str.join Str.nl (l :: l' :: ls))
      with (l +:+ Str.nl +:+ Str.join Str.nl (l' :: ls)).
    rewrite <- str_app_assoc. apply rstrip_app; [done|].
    apply Forall_cons in Hls as [(Hne' & _) _].
    destruct l' as [|c l']; [done|]. by destruct ls.
  - destruct H as [|l ls (Hne & Hs & _) _]; [done|].
    apply stripped_head_ok in Hs.
    destruct l as [|c l]; [done|]. by destruct ls.
Qed.

Lemma header_content_body name line :
  no_nl line → Forall body_line (header_content name line).
Proof.
  intros Hl. unfold header_content.
  destruct (first_match _ _) as [[p m]|]; [|done].
  destruct (Str.truthy _) eqn:E; [|done].
  constructor; [|done]. split; [by apply truthy_true|].
  split; [apply strip_idemp|]. by apply strip_no_nl, drop_no_nl.
Qed.

(** What the loop keeps true. *)
Definition bodies_ok st : Prop :=
  map_Forall (fun _ v => body_ok v) (sections st)
  ∧ Forall body_line (current_content st).

Lemma save_section_bodies st :
  bodies_ok st → map_Forall (fun _ v => body_ok v) (save_section st).
Proof.
  intros [Hs Hc]. unfold save_section.
  destruct (current_section st) as [n|]; [|done].
  destruct (Str.truthy n && _) eqn:E; [|done].
  apply andb_true_iff in E as [_ E]. apply negb_true_iff in E.
  apply bool_decide_eq_false_1 in E.
  apply map_Forall_insert_2; [|done]. right.
  exists (current_content st). split; [done|]. split; [done|].
  by apply strip_join_body.
Qed.

Lemma step_bodies st line : no_nl line → bodies_ok st → bodies_ok (step st line).
Proof.
  intros Hl Hok. destruct (recognised line) as [n|] eqn:E.
  - rewrite (step_header _ _ _ E). split; simpl.
    + by apply save_section_bodies.
    + by apply header_content_body, strip_no_nl.
  - rewrite (step_body _ _ E). destruct (Str.truthy (Str.strip line)) eqn:Et; [|done].
    destruct (truthy_opt _); [|done]. destruct Hok as [Hs Hc]. split; simpl; [done|].
    apply Forall_app. split; [done|]. constructor; [|done].
    split; [by apply truthy_true|]. split; [apply strip_idemp|by apply strip_no_nl].
Qed.

Lemma foldl_step_bodies lines st :
  Forall no_nl lines → bodies_ok st → bodies_ok (foldl step st lines).
Proof.
  intros H. revert st. induction H as [|l ls Hl _ IH]; intros st Hok; [done|].
  simpl. by apply IH, step_bodies.
Qed.

Lemma initial_bodies : bodies_ok initial_state.
Proof.
  split; [|done]. intros name v H. left.
  assert (name ∈ section_names) as Hin.
  { apply elem_of_names_set. rewrite <- dom_empty_sections.
    apply elem_of_dom. by eexists. }
  simpl in H. rewrite lookup_empty_sections in H by done. congruence.
Qed.

End stored_bodies.

(** X8.  Every body the loop over the lines stores is made of the lines it
    gathered and nothing else: the body is stripped (the final [strip()]
    removes nothing), and cutting it at the line feeds gives back lines that
    are stripped and not empty, so a body never holds a blank line. *)
Theorem primary_section_bodies (text name body : string) :
  primary_sections text !! name = Some body →
  Str.strip body = body
  ∧ (body ≠ "" →
     Forall (fun l => l ≠ "" ∧ Str.strip l = l) (Str.split_nl body)
     ∧ Str.join Str.nl (Str.split_nl body) = body).
Proof.
  intros H.
  assert (body_ok body) as [->|(content & Hne & Hc & ->)].
  { eapply (save_section_bodies (scan (Str.split_nl text))); [|exact H].
    apply foldl_step_bodies; [apply split_nl_no_nl|apply initial_bodies]. }
  - done.
  - split; [by apply strip_join_body|]. intros _.
    rewrite split_nl_join; [| |done].
    + split; [|done]. eapply Forall_impl; [exact Hc|]. by intros l (? & ? & _).
    + eapply Forall_impl; [exact Hc|]. by intros l (_ & _ & ?).
Qed.

Lemma primary_section_bodies_witness :
  let text := Str.join Str.nl ["SCOPE   all works "; ""; "  more  "; "TIMELINE"] in
  Str.strip ("all works" +:+ Str.nl +:+ "more") = "all works" +:+ Str.nl +:+ "more".
Proof.
  intros text.
  destruct (primary_section_bodies text "scope" ("all works" +:+ Str.nl +:+ "more"))
    as [H _]; [reflexivity|exact H].
Defined.

(** ** Where the lines of a body come from *)

(** A line of the body of section [name] taken from the lines of the
    input: a line that carries no header, stripped; or what a header line
    of this very section holds after the header. *)
Definition body_source (name : string) (lines : list string) (l : string) : Prop :=
  ∃ line, line ∈ lines
    ∧ ((recognised line = None ∧ l = Str.strip line)
       ∨ (recognised line = Some name
          ∧ header_content name (Str.strip line) = [l])).

Section body_sources.

Implicit Types (st : seg_state) (l line name v : string)
  (content lines ls : list string).

Lemma header_content_cases name line :
  header_content name line = [] ∨ ∃ l, header_content name line = [l].
Proof.
  unfold header_content. destruct (first_match _ _) as [[p m]|]; [|by left].
  destruct (Str.truthy _); [right; by eexists|by left].
Qed.

(** What the loop keeps true of the bodies stored and of the lines gathered
    for the open section. *)
Definition sourced lines st : Prop :=
  (∀ name v, sections st !! name = Some v →
     v = "" ∨ ∃ content, content ≠ [] ∧ Forall body_line content
                         ∧ Forall (body_source name lines) content
                         ∧ v = Str.join Str.nl content)
  ∧ Forall body_line (current_content st)
  ∧ ∀ name, current_section st = Some name →
      Forall (body_source name lines) (current_content st).

Lemma save_section_sourced lines st name v :
  sourced lines st → save_section st !! name = Some v →
  v = "" ∨ ∃ content, content ≠ [] ∧ Forall body_line content
                      ∧ Forall (body_source name lines) content
                      ∧ v = Str.join Str.nl content.
Proof.
  intros (Hs & Hb & Hc). unfold save_section.
  destruct (current_section st) as [n|] eqn:En; [|apply Hs].
  destruct (Str.truthy n && _) eqn:E; [|apply Hs].
  apply andb_true_iff in E as [_ E]. apply negb_true_iff in E.
  apply bool_decide_eq_false_1 in E.
  destruct (decide (n = name)) as [->|Hne].
  - rewrite lookup_insert_eq. intros [= <-]. right.
    exists (current_content st). split; [done|]. split; [done|].
    split; [by apply Hc|]. by apply strip_join_body.
  - rewrite lookup_insert_ne by done. apply Hs.
Qed.

Lemma step_sourced lines st line :
  line ∈ lines → no_nl line → sourced lines st → sourced lines (step st line).
Proof.
  intros Hin Hl Hok. destruct (recognised line) as [n|] eqn:E.
  - rewrite (step_header _ _ _ E). split; [|split]; simpl.
    + intros name v. by apply save_section_sourced.
    + by apply header_content_body, strip_no_nl.
    + intros name [= <-].
      destruct (header_content_cases n (Str.strip line)) as [H|[l H]]; rewrite H; [done|].
      constructor; [|done]. exists line. split; [done|]. right. by split.
  - rewrite (step_body _ _ E). destruct (Str.truthy (Str.strip line)) eqn:Et; [|done].
    destruct (truthy_opt _); [|done]. destruct Hok as (Hs & Hb & Hc).
    split; [|split]; simpl; [done| |].
    + apply Forall_app. split; [done|]. constructor; [|done].
      split; [by apply truthy_true|]. split; [apply strip_idemp|by apply strip_no_nl].
    + intros name Hn. apply Forall_app. split; [by apply Hc|]. constructor; [|done].
      exists line. split; [done|]. left. by split.
Qed.

Lemma foldl_step_sourced lines ls st :
  ls ⊆ lines → Forall no_nl ls → sourced lines st → sourced lines (foldl step st ls).
Proof.
  revert st. induction ls as [|l ls IH]; intros st Hsub Hnl Hok; [done|].
  apply Forall_cons in Hnl as [Hl Hnl]. simpl. apply IH; [|done|].
  - intros x Hx. apply Hsub. by apply elem_of_cons; right.
  - apply step_sourced; [|done|done]. apply Hsub. by apply elem_of_cons; left.
Qed.

Lemma initial_sourced lines : sourced lines initial_state.
Proof.
  split; [|split]; [|done|done]. intros name v H. left.
  assert (name ∈ section_names) as Hin.
  { apply elem_of_names_set. rewrite <- dom_empty_sections.
    apply elem_of_dom. by eexists. }
  simpl in H. rewrite lookup_empty_sections in H by done. congruence.
Qed.

End body_sources.

(** X17.  The loop over the lines puts nothing into a body but lines of
    the input: every line of the body stored for a section is a line of the
    text on which no header is recognised, stripped, or what a header line
    of that same section holds after its header.  (What follows a header is
    stored as it stands, also when it reads as a header itself: the line
    "Scope Timeline" gives the scope section the line "Timeline".) *)
Theorem primary_section_lines (text name body : string) :
  primary_sections text !! name = Some body → body ≠ "" →
  Forall (body_source name (Str.split_nl text)) (Str.split_nl body).
Proof.
  intros H Hne.
  destruct (save_section_sourced (Str.split_nl text) (scan (Str.split_nl text))
              name body) as [->|(content & Hc & Hb & Hs & ->)]; [|done|done|].
  { apply foldl_step_sourced; [done|apply split_nl_no_nl|apply initial_sourced]. }
  rewrite split_nl_join; [done| |done].
  eapply Forall_impl; [exact Hb|]. by intros l (_ & _ & ?).
Qed.

Lemma primary_section_lines_witness :
  Forall (body_source "scope"
            ["Scope: all works "; ""; "  by hand  "; "Scope of supply"; "TIMELINE"])
         ["of supply"].
Proof.
  apply (primary_section_lines
           (Str.join Str.nl ["Scope: all works "; ""; "  by hand  ";
                             "Scope of supply"; "TIMELINE"])
           "scope" "of supply").
  - reflexivity.
  - discriminate.
Defined.

(** ** reporter.py: [summarize_issues] *)

(** The literal [{"Critical": 0, "Warning": 0, "Info": 0}]. *)
Definition empty_summary : gmap string Z :=
  <["Critical" := 0%Z]> (<["Warning" := 0%Z]> (<["Info" := 0%Z]> ∅)).

(** One iteration: [if sev in summary: summary[sev] += 1 else:
    summary['Info'] += 1].  A list as severity cannot be looked up:
    [TypeError], here [None]. *)
Definition summary_step (summary : gmap string Z) (i : issue)
  : option (gmap string Z) :=
  match severity_of i with
  | VStr sev =>
      Some (if bool_decide (is_Some (summary !! sev))
            then <[sev := (summary !!! sev + 1)%Z]> summary
            else <["Info" := (summary !!! "Info" + 1)%Z]> summary)
  | VList _ => None
  end.

Fixpoint summary_loop (summary : gmap string Z) (issues : list issue)
  : option (gmap string Z) :=
  match issues with
  | [] => Some summary
  | i :: rest => s ← summary_step summary i; summary_loop s rest
  end.

Definition summarize_issues (issues : list issue) : option (gmap string Z) :=
  summary_loop empty_summary issues.

(** The three severities of a summary. *)
Definition severities : gset string := {["Critical"; "Warning"; "Info"]}.

(** The entry of the summary an issue is counted under. *)
Definition bucket (i : issue) : string :=
  match severity_of i with
  | VStr sev => if bool_decide (sev ∈ severities) then sev else "Info"
  | VList _ => "Info"
  end.

(** The number of issues counted under a severity. *)
Definition count_of (sev : string) (issues : list issue) : Z :=
  Z.of_nat (List.length (filter (fun i => bucket i = sev) issues)).

Section summary.

Implicit Types (s : gmap string Z) (i : issue) (issues : list issue) (sev : string).

Lemma bucket_severity i : bucket i ∈ severities.
Proof.
  unfold bucket. destruct (severity_of i) as [sev|]; [|set_solver].
  case_bool_decide; [done|set_solver].
Qed.

Lemma summary_step_bucket s i :
  str_severity i → dom s = severities →
  summary_step s i = Some (<[bucket i := (s !!! bucket i + 1)%Z]> s).
Proof.
  intros [sev Hsev] Hd. unfold summary_step, bucket. rewrite Hsev. f_equal.
  destruct (decide (sev ∈ severities)) as [Hin|Hin].
  - rewrite !bool_decide_eq_true_2; [done|done|]. apply elem_of_dom. by rewrite Hd.
  - rewrite !bool_decide_eq_false_2; [done|done|]. rewrite <- elem_of_dom. by rewrite Hd.
Qed.

Lemma count_of_cons sev i issues :
  count_of sev (i :: issues)
  = ((if bool_decide (bucket i = sev) then 1 else 0) + count_of sev issues)%Z.
Proof.
  unfold count_of. rewrite filter_cons. case_bool_decide.
  - rewrite decide_True by done. simpl List.length. lia.
  - rewrite decide_False by done. lia.
Qed.

Lemma summary_loop_counts issues s :
  Forall str_severity issues → dom s = severities →
  ∃ s', summary_loop s issues = Some s'
        ∧ dom s' = severities
        ∧ ∀ sev, sev ∈ severities →
            s' !! sev = Some (s !!! sev + count_of sev issues)%Z.
Proof.
  intros H. revert s. induction H as [|i issues Hi _ IH]; intros s Hd.
  - exists s. split; [done|]. split; [done|]. intros sev Hin.
    unfold count_of. simpl. rewrite Z.add_0_r.
    rewrite <- Hd in Hin. apply elem_of_dom in Hin as [v Hv].
    by rewrite (lookup_total_correct _ _ _ Hv).
  - simpl. rewrite (summary_step_bucket _ _ Hi Hd). simpl.
    destruct (IH (<[bucket i := (s !!! bucket i + 1)%Z]> s)) as (s' & Hs' & Hd' & Hc).
    { rewrite dom_insert_L, Hd. pose proof (bucket_severity i). set_solver. }
    exists s'. split; [done|]. split; [done|]. intros sev Hin.
    rewrite (Hc sev Hin), count_of_cons. f_equal.
    case_bool_decide as E.
    + rewrite E, lookup_total_insert_eq. lia.
    + rewrite lookup_total_insert_ne by done. lia.
Qed.

Lemma count_of_total issues :
  (count_of "Critical" issues + count_of "Warning" issues + count_of "Info" issues)%Z
  = Z.of_nat (List.length issues).
Proof.
  induction issues as [|i issues IH]; [done|].
  rewrite !count_of_cons. simpl List.length.
  pose proof (bucket_severity i) as Hb. unfold severities in Hb.
  apply elem_of_union in Hb as [[Hb|Hb]%elem_of_union|Hb];
    apply elem_of_singleton in Hb; rewrite Hb;
    repeat case_bool_decide; try done; lia.
Qed.

End summary.

(** X9.  On issues whose severities are strings [summarize_issues] returns
    a summary with exactly the keys Critical, Warning and Info; every issue
    is counted once, under its severity if that is one of the three and
    under Info otherwise (also when it has no severity), so the three
    counts add up to the number of issues. *)
Theorem summarize_issues_counts (issues : list issue) :
  Forall str_severity issues →
  ∃ summary,
    summarize_issues issues = Some summary
    ∧ dom summary = severities
    ∧ summary !! "Critical" = Some (count_of "Critical" issues)
    ∧ summary !! "Warning" = Some (count_of "Warning" issues)
    ∧ summary !! "Info" = Some (count_of "Info" issues)
    ∧ (count_of "Critical" issues + count_of "Warning" issues
       + count_of "Info" issues)%Z = Z.of_nat (List.length issues).
Proof.
  intros H.
  destruct (summary_loop_counts issues empty_summary H) as (s & Hs & Hd & Hc).
  { unfold empty_summary, severities. rewrite !dom_insert_L, dom_empty_L. set_solver. }
  exists s. split; [done|]. split; [done|].
  split; [|split; [|split]].
  - rewrite Hc by set_solver. f_equal.
  - rewrite Hc by set_solver. f_equal.
  - rewrite Hc by set_solver. f_equal.
  - apply count_of_total.
Qed.

Lemma summarize_issues_counts_witness :
  ∃ summary,
    summarize_issues [ <["severity" := VStr "Critical"]> ∅; ∅;
                       <["severity" := VStr "Blocker"]> ∅ ] = Some summary
    ∧ summary !! "Info" = Some 2%Z.
Proof.
  destruct (summarize_issues_counts
              [ <["severity" := VStr "Critical"]> ∅; ∅;
                <["severity" := VStr "Blocker"]> ∅ ])
    as (s & Hs & _ & _ & _ & Hi & _).
  - repeat constructor; eexists; reflexivity.
  - exists s. split; [exact Hs|]. rewrite Hi. reflexivity.
Defined.

(** ** Summary and score together *)

Section summary_and_score.

Implicit Types (i : issue) (issues : list issue).

Lemma default_weight_bucket i :
  str_severity i →
  severity_weight default_weights i
  = if bool_decide (bucket i = "Critical") then 10%Z
    else if bool_decide (bucket i = "Warning") then 5%Z else 1%Z.
Proof.
  intros [sev Hsev]. unfold severity_weight, bucket. rewrite Hsev.
  destruct (decide (sev = "Critical")) as [->|H1]; [done|].
  destruct (decide (sev = "Warning")) as [->|H2]; [done|].
  destruct (decide (sev = "Info")) as [->|H3]; [done|].
  assert (default_weights !! sev = None) as ->.
  { unfold default_weights. by rewrite !lookup_insert_ne, lookup_empty. }
  assert (sev ∉ severities) as Hin.
  { unfold severities. rewrite !elem_of_union, !elem_of_singleton. tauto. }
  by rewrite (bool_decide_eq_false_2 _ Hin).
Qed.

Lemma score_by_counts issues :
  Forall str_severity issues →
  sum_Z (severity_weight default_weights <$> issues)
  = (10 * count_of "Critical" issues + 5 * count_of "Warning" issues
     + count_of "Info" issues)%Z.
Proof.
  induction 1 as [|i issues Hi _ IH]; [done|].
  rewrite fmap_cons, sum_Z_cons, IH, !count_of_cons, (default_weight_bucket _ Hi).
  pose proof (bucket_severity i) as Hb. unfold severities in Hb.
  apply elem_of_union in Hb as [[Hb|Hb]%elem_of_union|Hb];
    apply elem_of_singleton in Hb; rewrite Hb;
    repeat case_bool_decide; try done; lia.
Qed.

End summary_and_score.

(** X10.  With the default weights the risk score is the weighted sum of
    the summary: ten times the Critical count, five times the Warning count
    and once the Info count of [summarize_issues] (issues of unknown or
    missing severity weigh 1 and are counted under Info, in both). *)
Theorem risk_score_of_summary (issues : list issue) :
  Forall str_severity issues →
  ∃ summary,
    summarize_issues issues = Some summary
    ∧ assign_risk_score issues None
      = Some (10 * summary !!! "Critical" + 5 * summary !!! "Warning"
              + summary !!! "Info")%Z.
Proof.
  intros H.
  destruct (summary_loop_counts issues empty_summary H) as (s & Hs & Hd & Hc).
  { unfold empty_summary, severities. rewrite !dom_insert_L, dom_empty_L. set_solver. }
  exists s. split; [done|].
  unfold assign_risk_score. simpl. rewrite score_loop_sum by done.
  rewrite (score_by_counts _ H).
  assert (∀ sev, sev ∈ severities → s !!! sev = count_of sev issues) as Ht.
  { intros sev Hin. apply lookup_total_correct. rewrite (Hc sev Hin). f_equal.
    unfold severities in Hin. rewrite !elem_of_union, !elem_of_singleton in Hin.
    by destruct Hin as [[-> | ->]| ->]. }
  rewrite !Ht; [done|..]; unfold severities;
    rewrite !elem_of_union, !elem_of_singleton; tauto.
Qed.

Lemma risk_score_of_summary_witness :
  ∃ summary,
    summarize_issues [ <["severity" := VStr "Critical"]> ∅; ∅ ] = Some summary
    ∧ assign_risk_score [ <["severity" := VStr "Critical"]> ∅; ∅ ] None
      = Some (10 * summary !!! "Critical" + 5 * summary !!! "Warning"
              + summary !!! "Info")%Z.
Proof.
  apply risk_score_of_summary. repeat constructor; eexists; reflexivity.
Defined.

(** ** Issues of two reviews together *)

(** [main.py] and [visualizer.py] score and summarise
    [nlp_issues + llm_issues], the issues of the rule engine followed by
    those of the other review. *)

Section combined_issues.

Implicit Types (w s : gmap string Z) (i : issue) (a b issues : list issue)
  (sev : string).

Lemma sum_Z_app (l1 l2 : list Z) : sum_Z (l1 ++ l2) = (sum_Z l1 + sum_Z l2)%Z.
Proof.
  induction l1 as [|x l1 IH]; [done|].
  rewrite <- app_comm_cons, !sum_Z_cons, IH. lia.
Qed.

Lemma count_of_app sev a b :
  count_of sev (a ++ b) = (count_of sev a + count_of sev b)%Z.
Proof. unfold count_of. rewrite filter_app, length_app. lia. Qed.

Lemma summarize_issues_total issues :
  Forall str_severity issues →
  ∃ s, summarize_issues issues = Some s
       ∧ ∀ sev, sev ∈ severities → s !!! sev = count_of sev issues.
Proof.
  intros H.
  destruct (summary_loop_counts issues empty_summary H) as (s & Hs & _ & Hc).
  { unfold empty_summary, severities. rewrite !dom_insert_L, dom_empty_L. set_solver. }
  exists s. split; [done|]. intros sev Hin.
  apply lookup_total_correct. rewrite (Hc sev Hin). f_equal.
  unfold severities in Hin. rewrite !elem_of_union, !elem_of_singleton in Hin.
  by destruct Hin as [[-> | ->]| ->].
Qed.

End combined_issues.

(** X16.  On issues whose severities are strings, the score of two lists
    of issues put together is the sum of their scores, and each entry of
    the summary is the sum of the two entries. *)
Theorem combined_issues (a b : list issue) (weights : option (gmap string Z)) :
  Forall str_severity a → Forall str_severity b →
  ∃ score_a score_b s_a s_b s,
    assign_risk_score a weights = Some score_a
    ∧ assign_risk_score b weights = Some score_b
    ∧ assign_risk_score (a ++ b) weights = Some (score_a + score_b)%Z
    ∧ summarize_issues a = Some s_a
    ∧ summarize_issues b = Some s_b
    ∧ summarize_issues (a ++ b) = Some s
    ∧ ∀ sev, sev ∈ severities → s !!! sev = (s_a !!! sev + s_b !!! sev)%Z.
Proof.
  intros Ha Hb.
  assert (Forall str_severity (a ++ b)) as Hab by by apply Forall_app.
  destruct (summarize_issues_total a Ha) as (s_a & Hsa & Hca).
  destruct (summarize_issues_total b Hb) as (s_b & Hsb & Hcb).
  destruct (summarize_issues_total (a ++ b) Hab) as (s & Hs & Hc).
  eexists _, _, s_a, s_b, s. unfold assign_risk_score.
  rewrite !score_loop_sum by done.
  split; [done|]. split; [done|]. split.
  { f_equal. rewrite fmap_app, sum_Z_app. lia. }
  split; [done|]. split; [done|]. split; [done|].
  intros sev Hin. rewrite (Hc sev Hin), (Hca sev Hin), (Hcb sev Hin).
  apply count_of_app.
Qed.

Lemma combined_issues_witness :
  ∃ s_a s_b s,
    summarize_issues [ <["severity" := VStr "Critical"]> ∅ ] = Some s_a
    ∧ summarize_issues [ <["severity" := VStr "Critical"]> ∅; ∅ ] = Some s_b
    ∧ summarize_issues [ <["severity" := VStr "Critical"]> ∅;
                         <["severity" := VStr "Critical"]> ∅; ∅ ] = Some s
    ∧ s !!! "Critical" = (s_a !!! "Critical" + s_b !!! "Critical")%Z
    ∧ assign_risk_score [ <["severity" := VStr "Critical"]> ∅;
                          <["severity" := VStr "Critical"]> ∅; ∅ ] None = Some 21%Z.
Proof.
  destruct (combined_issues [ <["severity" := VStr "Critical"]> ∅ ]
              [ <["severity" := VStr "Critical"]> ∅; ∅ ] None)
    as (score_a & score_b & s_a & s_b & s & Ha & Hb & Hab & Hsa & Hsb & Hs & H).
  - repeat constructor; eexists; reflexivity.
  - repeat constructor; eexists; reflexivity.
  - exists s_a, s_b, s. split; [exact Hsa|]. split; [exact Hsb|]. split; [exact Hs|].
    split.
    + apply H. unfold severities. rewrite !elem_of_union, !elem_of_singleton. tauto.
    + simpl app in Hab. rewrite Hab. f_equal.
      injection Ha as <-. injection Hb as <-. reflexivity.
Defined.

(** ** The rule engine and the score *)

Section engine_score.

Implicit Types (i : issue) (issues : list issue) (text : string)
               (secs : gmap string string).

Lemma sum_Z_const (w : gmap string Z) (k : Z) issues :
  Forall (fun i => severity_weight w i = k) issues →
  sum_Z (severity_weight w <$> issues) = (k * Z.of_nat (List.length issues))%Z.
Proof.
  induction 1 as [|i issues Hi _ IH]; [unfold sum_Z; simpl; lia|].
  rewrite fmap_cons, sum_Z_cons, IH, Hi. simpl List.length. lia.
Qed.

Lemma filter_none {A} (P : A → Prop) `{!∀ x, Decision (P x)} (l : list A) :
  Forall (fun x => ¬ P x) l → filter P l = [].
Proof.
  induction 1 as [|x l Hx _ IH]; [done|]. by rewrite filter_cons, decide_False.
Qed.

Lemma mjoin_two {A} (l1 l2 : list A) : mjoin [l1; l2] = l1 ++ l2.
Proof. simpl. by rewrite app_nil_r. Qed.

Lemma check_pair_issues text p1 p2 i :
  i ∈ check_pair text (p1, p2) →
  ∃ m1 m2, i = contradiction_issue p1 p2 m1 m2.
Proof.
  unfold check_pair.
  destruct (Re.search true p1 text) as [m1|]; [|by intros ?%elem_of_nil].
  destruct (Re.search true p2 text) as [m2|]; [|by intros ?%elem_of_nil].
  case_bool_decide; [|by intros ?%elem_of_nil].
  intros ->%list_elem_of_singleton. by exists m1, m2.
Qed.

Lemma check_pair_length text p1 p2 : List.length (check_pair text (p1, p2)) <= 1.
Proof.
  unfold check_pair.
  destruct (Re.search true p1 text); [|simpl; lia].
  destruct (Re.search true p2 text); [|simpl; lia].
  case_bool_decide; simpl; lia.
Qed.

Lemma check_contradictions_issues text i :
  i ∈ check_contradictions text →
  ∃ p1 p2 m1 m2, i = contradiction_issue p1 p2 m1 m2.
Proof.
  rewrite check_contradictions_pairs. unfold CONTRADICTION_PATTERNS.
  rewrite !fmap_cons, fmap_nil. simpl. rewrite app_nil_r.
  intros [H|H]%elem_of_app; apply check_pair_issues in H as (m1 & m2 & ->);
    by eexists _, _, m1, m2.
Qed.

Lemma check_contradictions_length text :
  List.length (check_contradictions text) <= 2.
Proof.
  rewrite check_contradictions_pairs. unfold CONTRADICTION_PATTERNS.
  rewrite !fmap_cons, fmap_nil, mjoin_two, length_app.
  pose proof (check_pair_length text "completion in (\d+) months"
                "phases? spanning (\d+) months").
  pose proof (check_pair_length text "start date:? (\w+ \d{4})"
                "completion date:? (\w+ \d{4})").
  lia.
Qed.

Lemma check_missing_sections_length secs :
  List.length (check_missing_sections secs) <= 9.
Proof.
  rewrite check_missing_sections_filter, length_fmap.
  etrans; [apply length_filter|]. done.
Qed.

Lemma check_ambiguous_terms_length text :
  List.length (check_ambiguous_terms text) <= 10.
Proof.
  rewrite check_ambiguous_terms_filter, length_fmap.
  etrans; [apply length_filter|]. done.
Qed.

Lemma missing_weight secs :
  Forall (fun i => severity_of i = VStr "Critical") (check_missing_sections secs).
Proof.
  rewrite check_missing_sections_filter. apply Forall_fmap, Forall_forall.
  intros s _. done.
Qed.

Lemma ambiguous_weight text :
  Forall (fun i => severity_of i = VStr "Warning") (check_ambiguous_terms text).
Proof.
  rewrite check_ambiguous_terms_filter. apply Forall_fmap, Forall_forall.
  intros s _. done.
Qed.

Lemma contradiction_weight text :
  Forall (fun i => severity_of i = VStr "Critical") (check_contradictions text).
Proof.
  apply Forall_forall. intros i (p1 & p2 & m1 & m2 & ->)%check_contradictions_issues.
  done.
Qed.

End engine_score.

(** X11.  The issues of the rule engine can always be scored: each has a
    string severity, Critical for a missing section or a contradiction and
    Warning for an ambiguous term, never Info.  With the default weights the
    score of [analyze_sow_nlp] is ten times the number of missing-section
    and contradiction issues plus five times the number of ambiguous-term
    issues, and is at most 160 (nine sections, ten terms, two pairs). *)
Theorem engine_risk_score (full_text : string) (secs : gmap string string) :
  let issues := analyze_sow_nlp full_text secs in
  let missing := Z.of_nat (List.length (check_missing_sections secs)) in
  let ambiguous := Z.of_nat (List.length (check_ambiguous_terms full_text)) in
  let contradictions := Z.of_nat (List.length (check_contradictions full_text)) in
  Forall (fun i => severity_of i = VStr "Critical" ∨ severity_of i = VStr "Warning") issues
  ∧ assign_risk_score issues None
    = Some (10 * missing + 5 * ambiguous + 10 * contradictions)%Z
  ∧ (10 * missing + 5 * ambiguous + 10 * contradictions <= 160)%Z
  ∧ count_of "Info" issues = 0%Z.
Proof.
  intros issues missing ambiguous contradictions.
  pose proof (missing_weight secs) as Hm.
  pose proof (ambiguous_weight full_text) as Ha.
  pose proof (contradiction_weight full_text) as Hc.
  assert (Forall (fun i => severity_of i = VStr "Critical"
                           ∨ severity_of i = VStr "Warning") issues) as Hall.
  { unfold issues, analyze_sow_nlp. rewrite !Forall_app. split_and!.
    - eapply Forall_impl; [exact Hm|]. auto.
    - eapply Forall_impl; [exact Ha|]. auto.
    - eapply Forall_impl; [exact Hc|]. auto. }
  assert (Forall str_severity issues) as Hstr.
  { eapply Forall_impl; [exact Hall|]. intros i [H|H]; by eexists. }
  split; [done|]. split; [|split].
  - unfold assign_risk_score. simpl. rewrite score_loop_sum by done.
    unfold issues, analyze_sow_nlp. rewrite !fmap_app, !sum_Z_app.
    rewrite (sum_Z_const _ 10), (sum_Z_const _ 5), (sum_Z_const _ 10).
    + f_equal. unfold missing, ambiguous, contradictions. lia.
    + eapply Forall_impl; [exact Hc|]. intros i H.
      unfold severity_weight. by rewrite H.
    + eapply Forall_impl; [exact Ha|]. intros i H.
      unfold severity_weight. by rewrite H.
    + eapply Forall_impl; [exact Hm|]. intros i H.
      unfold severity_weight. by rewrite H.
  - pose proof (check_missing_sections_length secs).
    pose proof (check_ambiguous_terms_length full_text).
    pose proof (check_contradictions_length full_text).
    unfold missing, ambiguous, contradictions. lia.
  - unfold count_of. rewrite filter_none; [done|].
    eapply Forall_impl; [exact Hall|]. intros i [H|H]; unfold bucket; by rewrite H.
Qed.

(** ** Segmentation followed by the missing-section check *)

Lemma filter_ext_in {A} (P Q : A → Prop) `{!∀ x, Decision (P x)}
                    `{!∀ x, Decision (Q x)} (l : list A) :
  (∀ x, x ∈ l → P x ↔ Q x) → filter P l = filter Q l.
Proof.
  induction l as [|x l IH]; intros Hext; [done|].
  rewrite !filter_cons.
  assert (P x ↔ Q x) as Hx by (apply Hext, elem_of_cons; by left).
  rewrite IH by (intros y Hy; apply Hext, elem_of_cons; by right).
  destruct (decide (P x)), (decide (Q x)); tauto.
Qed.

Lemma extract_sections_dom (text : string) : dom (extract_sections text) = names_set.
Proof.
  unfold extract_sections. destruct (any_value _).
  - apply primary_sections_dom.
  - apply fallback_dom.
Qed.

(** X12.  On the result of [extract_sections] the missing-section check
    reports exactly the sections whose body is the empty string, once
    each and in the order of the table (the case of an absent key does
    not arise); so the number of its issues and the number of sections
    with a body add up to nine. *)
Theorem missing_sections_of_extraction (text : string) :
  let secs := extract_sections text in
  check_missing_sections secs
  = missing_section_issue <$> filter (fun n => secs !! n = Some "") section_names
  ∧ List.length (check_missing_sections secs)
    + List.length (filter (fun n => truthy_opt (secs !! n)) section_names) = 9.
Proof.
  intros secs.
  assert (∀ n, n ∈ section_names → is_Some (secs !! n)) as Hsome.
  { intros n Hn. apply elem_of_dom. unfold secs. rewrite extract_sections_dom.
    by apply elem_of_names_set. }
  assert (check_missing_sections secs
          = missing_section_issue <$> filter (fun n => secs !! n = Some "") section_names)
    as Heq.
  { rewrite check_missing_sections_filter, critical_sections_names. f_equal.
    apply filter_ext_in. intros n Hn.
    rewrite Is_true_true, is_missing_spec. destruct (Hsome n Hn) as [v Hv].
    rewrite Hv. naive_solver. }
  split; [done|]. rewrite Heq, length_fmap.
  assert (∀ l : list string,
            (∀ n, n ∈ l → is_Some (secs !! n)) →
            List.length (filter (fun n => secs !! n = Some "") l)
            + List.length (filter (fun n => truthy_opt (secs !! n)) l)
            = List.length l) as Hcount.
  { induction l as [|n l IH]; intros Hl; [done|].
    rewrite !filter_cons.
    assert (is_Some (secs !! n)) as [v Hv] by (apply Hl, elem_of_cons; by left).
    assert (∀ n', n' ∈ l → is_Some (secs !! n')) as Hl'
      by (intros n' Hn'; apply Hl, elem_of_cons; by right).
    specialize (IH Hl').
    destruct v as [|c v].
    - rewrite decide_True by done.
      rewrite decide_False by (rewrite Hv; intros []).
      simpl. lia.
    - rewrite decide_False by congruence.
      rewrite decide_True by (rewrite Hv; exact I).
      simpl. lia. }
  by rewrite Hcount.
Qed.

(** ** extractor.py: [extract_from_pdf] and [extract_sow_content] *)

(** [s.endswith(suffix)] *)
Definition ends_with (suffix s : string) : bool :=
  Nat.leb (String.length suffix) (String.length s)
  && String.eqb (Str.drop (String.length s - String.length suffix) s) suffix.

(** The loop of [extract_from_pdf] over the pages, a page being what
    [page.extract_text()] returns, [None] or a text:
    [if page_text: text += page_text + "\n"]. *)
Definition pdf_text (pages : list (option string)) : string :=
  foldl (fun text page_text =>
           if truthy_opt page_text then text +:+ default "" page_text +:+ Str.nl
           else text)
        "" pages.

(** [extract_from_pdf] once the file is open. *)
Definition extract_from_pages (pages : list (option string)) : string :=
  clean_text (pdf_text pages).

(** An exception: a [ValueError] (or one of its subclasses, such as
    [UnicodeDecodeError]) with its message, or an exception of another
    class. *)
Inductive error :=
| ValueError (message : string)
| OtherError (class message : string).

Inductive outcome (A : Type) :=
| Returned (a : A)
| Raised (e : error).
Arguments Returned {A} a.
Arguments Raised {A} e.

(** The dictionary [{'full_text': ..., 'sections': ...}]. *)
Record sow_content := SowContent {
  full_text : string;
  content_sections : gmap string string
}.

Section extract_sow_content.

(** The world outside: what opening the PDF at a path and reading the
    text of its pages gives, and what opening and reading the text file
    at a path gives.  Either may raise, an exception of any class: a path
    with a NUL character and a file that is not UTF-8 raise a
    [ValueError], a missing file an [OSError]. *)
Variable open_pdf : string → outcome (list (option string)).
Variable read_text_file : string → outcome string.

(** [except Exception as e: logger.error(...); raise]: the exception is
    passed on as it is. *)
Definition extract_from_pdf (pdf_path : string) : outcome string :=
  match open_pdf pdf_path with
  | Returned pages => Returned (extract_from_pages pages)
  | Raised e => Raised e
  end.

Definition cleaned_input (file_path text : option string) : outcome string :=
  if truthy_opt file_path then
    let path := default "" file_path in
    if ends_with ".pdf" (Str.lower path) then extract_from_pdf path
    else match read_text_file path with
         | Returned raw_text => Returned (extract_from_text raw_text)
         | Raised e => Raised e
         end
  else if truthy_opt text then Returned (extract_from_text (default "" text))
  else Raised (ValueError "Either file_path or text must be provided").

Definition extract_sow_content (file_path text : option string)
  : outcome sow_content :=
  match cleaned_input file_path text with
  | Returned cleaned_text =>
      Returned (SowContent cleaned_text (extract_sections cleaned_text))
  | Raised e => Raised e
  end.

(** X13.  When neither a path nor a text is given ([None] or empty),
    [extract_sow_content] raises the [ValueError] of the source.  When
    only a text is given it never raises and reads no file.  A path, when
    given, is used and the text is ignored; an exception raised while the
    file is read is passed on as it is, whatever its class.  Whatever is
    returned holds a [full_text] that is a cleaned text, stripped, with
    the nine sections cut from that same text. *)
Theorem extract_sow_content_arguments (file_path text : option string) :
  (truthy_opt file_path = false → truthy_opt text = false →
   extract_sow_content file_path text
   = Raised (ValueError "Either file_path or text must be provided"))
  ∧ (truthy_opt file_path = false → truthy_opt text = true →
     extract_sow_content file_path text
     = Returned (SowContent (clean_text (default "" text))
                            (extract_sections (clean_text (default "" text)))))
  ∧ (truthy_opt file_path = true →
     (∀ text', extract_sow_content file_path text' = extract_sow_content file_path text)
     ∧ ∀ e, (if ends_with ".pdf" (Str.lower (default "" file_path))
             then open_pdf (default "" file_path) = Raised e
             else read_text_file (default "" file_path) = Raised e) →
            extract_sow_content file_path text = Raised e)
  ∧ (∀ r, extract_sow_content file_path text = Returned r →
       (∃ raw, full_text r = clean_text raw)
       ∧ Str.strip (full_text r) = full_text r
       ∧ content_sections r = extract_sections (full_text r)
       ∧ dom (content_sections r) = names_set).
Proof.
  unfold extract_sow_content, cleaned_input, extract_from_pdf, extract_from_text.
  split_and!.
  - by intros -> ->.
  - by intros -> ->.
  - intros ->. split; [done|]. intros e.
    destruct (ends_with _ _); by intros ->.
  - intros r Hr.
    assert (∃ raw, Returned r = Returned (SowContent (clean_text raw)
                                  (extract_sections (clean_text raw)))) as [raw [= ->]].
    { rewrite <- Hr. destruct (truthy_opt file_path).
      - destruct (ends_with _ _).
        + destruct (open_pdf _) as [pages|]; [|done]. by eexists.
        + destruct (read_text_file _) as [raw|]; [|done]. by eexists.
      - destruct (truthy_opt text); [|done]. by eexists. }
    simpl. split; [by eexists|]. split; [|split; [done|]].
    + unfold clean_text. destruct (Str.is_empty raw); [done|]. apply strip_idemp.
    + apply extract_sections_dom.
Qed.

End extract_sow_content.

Lemma extract_sow_content_arguments_witness :
  let no_pdf (_ : string) : outcome (list (option string)) :=
    Raised (OtherError "FileNotFoundError" "") in
  let not_utf8 (_ : string) : outcome string :=
    Raised (ValueError "'utf-8' codec can't decode byte") in
  extract_sow_content no_pdf not_utf8 None None
  = Raised (ValueError "Either file_path or text must be provided")
  ∧ extract_sow_content no_pdf not_utf8 (Some "") (Some "SCOPE")
    = Returned (SowContent "SCOPE" (extract_sections "SCOPE"))
  ∧ extract_sow_content no_pdf not_utf8 (Some "sow.txt") (Some "SCOPE")
    = Raised (ValueError "'utf-8' codec can't decode byte").
Proof.
  intros no_pdf not_utf8. split_and!.
  - destruct (extract_sow_content_arguments no_pdf not_utf8 None None) as (H & _).
    apply H; reflexivity.
  - destruct (extract_sow_content_arguments no_pdf not_utf8 (Some "") (Some "SCOPE"))
      as (_ & H & _).
    apply H; reflexivity.
  - destruct (extract_sow_content_arguments no_pdf not_utf8 (Some "sow.txt")
                (Some "SCOPE")) as (_ & _ & H & _).
    destruct H as [_ H]; [reflexivity|]. apply H. reflexivity.
Defined.

(** ** The text of a PDF *)

(** The pages that have a text. *)
Definition page_texts (pages : list (option string)) : list string :=
  omap (fun page_text => if truthy_opt page_text then page_text else None) pages.

Section pdf_pages.

Implicit Types (pages : list (option string)) (ps lines : list string) (s t : string).

Lemma cleaned_lines_app lines1 lines2 :
  cleaned_lines (lines1 ++ lines2) = cleaned_lines lines1 ++ cleaned_lines lines2.
Proof.
  induction lines1 as [|l ls IH]; [done|]. simpl.
  destruct (Str.is_empty _); [done|]. destruct (_is_header_footer _); [done|].
  by rewrite IH.
Qed.

(** The text of the pages: every page text followed by a line feed. *)
Definition with_line_feeds ps : string := foldr (fun p acc => p +:+ Str.nl +:+ acc) "" ps.

Lemma foldl_pdf_text pages t :
  foldl (fun text page_text =>
           if truthy_opt page_text then text +:+ default "" page_text +:+ Str.nl
           else text) t pages
  = t +:+ with_line_feeds (page_texts pages).
Proof.
  revert t. induction pages as [|page pages IH]; intros t; simpl.
  - by rewrite str_app_nil_r.
  - rewrite IH. unfold page_texts. simpl.
    destruct page as [[|c p]|]; simpl; try done.
    by rewrite !str_app_assoc.
Qed.

Lemma pdf_text_line_feeds pages : pdf_text pages = with_line_feeds (page_texts pages).
Proof. unfold pdf_text. by rewrite foldl_pdf_text. Qed.

Lemma split_with_line_feeds ps :
  Str.split_nl (with_line_feeds ps) = (ps ≫= Str.split_nl) ++ [""].
Proof.
  induction ps as [|p ps IH]; [done|]. simpl.
  by rewrite split_nl_app, IH, app_assoc.
Qed.

Lemma split_join ps : ps ≠ [] → Str.split_nl (Str.join Str.nl ps) = ps ≫= Str.split_nl.
Proof.
  induction ps as [|p ps IH]; [done|]. intros _.
  destruct ps as [|q ps]; [simpl; by rewrite app_nil_r|].
  change (Str.join Str.nl (p :: q :: ps))
    with (p +:+ Str.nl +:+ Str.join Str.nl (q :: ps)).
  rewrite split_nl_app, IH by done. done.
Qed.

End pdf_pages.

(** X14.  The text taken from a PDF is the cleaned text of its pages put
    one after the other, each on lines of its own: pages for which the
    reader gives no text, or an empty one, are left out, and the order of
    the pages is kept. *)
Theorem extract_from_pages_joined (pages : list (option string)) :
  extract_from_pages pages = clean_text (Str.join Str.nl (page_texts pages))
  ∧ (page_texts pages = [] → extract_from_pages pages = "").
Proof.
  unfold extract_from_pages. rewrite pdf_text_line_feeds.
  destruct (page_texts pages) as [|p ps] eqn:E; [done|]. split; [|done].
  assert (p ≠ "") as Hp.
  { assert (p ∈ page_texts pages) as Hin by (rewrite E; apply elem_of_cons; by left).
    unfold page_texts in Hin. apply list_elem_of_omap in Hin as (page & _ & H).
    destruct page as [[|c q]|]; simpl in H; try done. by injection H as <-. }
  unfold clean_text.
  assert (Str.is_empty (with_line_feeds (p :: ps)) = false) as ->.
  { destruct p; [done|]. done. }
  assert (Str.is_empty (Str.join Str.nl (p :: ps)) = false) as ->.
  { destruct p; [done|]. by destruct ps. }
  unfold joined_lines.
  rewrite split_with_line_feeds, split_join by done.
  rewrite cleaned_lines_app. simpl. by rewrite app_nil_r.
Qed.

Lemma extract_from_pages_joined_witness :
  extract_from_pages [None; Some ""] = ""
  ∧ extract_from_pages [Some "SCOPE"; None; Some "All works."]
    = clean_text ("SCOPE" +:+ Str.nl +:+ "All works.").
Proof.
  split.
  - destruct (extract_from_pages_joined [None; Some ""]) as (_ & H).
    apply H. reflexivity.
  - destruct (extract_from_pages_joined [Some "SCOPE"; None; Some "All works."])
      as (H & _).
    exact H.
Defined.

(** ** A blank document *)

(** X15.  A document that holds white space only is not an error: given
    as text, it is cleaned to the empty text, all nine sections come out
    empty, the rule engine reports the nine missing sections and nothing
    else, and the score is 90. *)
Theorem blank_document_review
    (open_pdf : string → outcome (list (option string)))
    (read_text_file : string → outcome string) (text : string) :
  text ≠ "" → Str.forallb Char.is_space text = true →
  ∃ secs,
    extract_sow_content open_pdf read_text_file None (Some text)
    = Returned (SowContent "" secs)
    ∧ (∀ name, name ∈ section_names → secs !! name = Some "")
    ∧ (fun i : issue => i !! "section") <$> analyze_sow_nlp "" secs
      = (fun s => Some (VStr s)) <$> section_names
    ∧ assign_risk_score (analyze_sow_nlp "" secs) None = Some 90%Z.
Proof.
  intros Hne Hws. exists (extract_sections "").
  assert (clean_text text = "") as Hclean.
  { unfold clean_text. destruct (Str.is_empty text); [done|]. unfold joined_lines.
    by rewrite (cleaned_lines_spaces _ (split_nl_spaces _ Hws)). }
  split; [|split; [|split]].
  - unfold extract_sow_content, cleaned_input, extract_from_text. simpl.
    apply truthy_true in Hne. by rewrite Hne, Hclean.
  - intros name Hn.
    assert (extract_sections "" !! name = empty_sections !! name) as ->
      by by vm_compute.
    by apply lookup_empty_sections.
  - by vm_compute.
  - by vm_compute.
Qed.

Lemma blank_document_review_witness :
  ∃ secs,
    extract_sow_content (fun _ => Raised (OtherError "FileNotFoundError" ""))
                        (fun _ => Raised (OtherError "FileNotFoundError" ""))
                        None (Some "   ")
    = Returned (SowContent "" secs)
    ∧ assign_risk_score (analyze_sow_nlp "" secs) None = Some 90%Z.
Proof.
  destruct (blank_document_review
              (fun _ => Raised (OtherError "FileNotFoundError" ""))
              (fun _ => Raised (OtherError "FileNotFoundError" "")) "   ")
    as (secs & H1 & _ & _ & H4); [discriminate|reflexivity|].
  exists secs. split; [exact H1|exact H4].
Defined.

(** ** Durations in figures of any length *)

(** A duration as the patterns read it: one digit or more. *)
Definition numeral (d : string) : Prop :=
  d ≠ "" ∧ Str.forallb Char.is_digit d = true.

Definition completion_in (d : string) : string := "completion in " +:+ d +:+ " months".
Definition phases_spanning (d : string) : string := "phases spanning " +:+ d +:+ " months".

(** The character does not occur in the text, letter case apart. *)
Definition absent (p : ascii) (s : string) : Prop :=
  Str.forallb (fun c => negb (Char.eqb_ci true p c)) s = true.

Section numerals.

Implicit Types (s t u a b c d w rest text : string) (p : ascii) (n j k pos : nat)
  (m : Re.match_obj).

Lemma eqb_ci_refl ic p : Char.eqb_ci ic p p = true.
Proof. unfold Char.eqb_ci. destruct ic; apply Ascii.eqb_refl. Qed.

Lemma prefix_ci_app ic w s : prefix_ci ic w (w +:+ s) = true.
Proof.
  induction w as [|x w IH]; [done|]. rewrite str_app_cons. simpl.
  by rewrite eqb_ci_refl, IH.
Qed.

Lemma digit_at_lt s k : digit_at k s = true → k < String.length s.
Proof.
  unfold digit_at. revert k. induction s as [|x s IH]; intros k; simpl.
  - by destruct k.
  - destruct k as [|k]; [lia|]. intros H%IH. lia.
Qed.

Lemma ci_at_absent p s j : absent p s → ci_at j p s = false.
Proof.
  unfold absent, ci_at. revert j. induction s as [|x s IH]; intros j; simpl.
  - by destruct j.
  - intros [Hx Hs]%andb_true_iff. destruct j as [|j]; simpl.
    + by apply negb_true_iff.
    + by apply IH.
Qed.

Lemma absent_app p s t : absent p s → absent p t → absent p (s +:+ t).
Proof. unfold absent. intros Hs Ht. by rewrite forallb_app, Hs, Ht. Qed.

Lemma digit_not_letter x :
  Char.is_digit x = true →
  Char.eqb_ci true "a" x = false ∧ Char.eqb_ci true "c" x = false.
Proof. destruct x as [[] [] [] [] [] [] [] []]; vm_compute; by intros. Qed.

Lemma absent_digits d :
  Str.forallb Char.is_digit d = true → absent "a" d ∧ absent "c" d.
Proof.
  unfold absent. induction d as [|x d IH]; [done|]. cbn [Str.forallb].
  intros [Hx Hd]%andb_true_iff. destruct (digit_not_letter x Hx) as [-> ->].
  destruct (IH Hd) as [-> ->]. done.
Qed.

(** The digits of a phrase are those of its figure. *)
Lemma phrase_digits w d t k :
  no_digit w → no_digit t →
  digit_at k (w +:+ d +:+ t) = true →
  String.length w <= k ∧ k < String.length w + String.length d.
Proof.
  intros Hw Ht [[_ H]|[H1 H]]%digit_at_app; [by rewrite no_digit_at in H|].
  apply digit_at_app in H as [[H2 _]|[_ H]]; [lia|by rewrite no_digit_at in H].
Qed.

(** *** The match at a phrase *)

Lemma star_cls_digits d t :
  Str.forallb Char.is_digit d = true → digit_at 0 t = false →
  ∃ l, Re.star_cls Re.Digit (d +:+ t) = t :: l.
Proof.
  intros Hd Ht. induction d as [|x d IH].
  - rewrite str_app_nil_l. destruct t as [|y t]; simpl; [by eexists|].
    unfold digit_at in Ht. simpl in Ht. rewrite Ht. by eexists.
  - simpl in Hd. apply andb_true_iff in Hd as [Hx Hd].
    destruct (IH Hd) as [l Hl]. rewrite str_app_cons. simpl.
    rewrite Hx, Hl. by eexists.
Qed.

Lemma duration_run d rest :
  numeral d →
  ∃ l, Re.re_run true (Re.Cat duration_group (lit " months"))
         (None, d +:+ " months" +:+ rest) = (Some d, rest) :: l.
Proof.
  intros [Hne Hd]. destruct d as [|x d]; [done|].
  simpl in Hd. apply andb_true_iff in Hd as [Hx Hd].
  destruct (star_cls_digits d (" months" +:+ rest) Hd) as [l Hl]; [done|].
  unfold duration_group.
  change (Re.re_run true (Re.Cat (Re.Grp (Re.Cat (Re.Plus Re.Digit) Re.Eps))
                                 (lit " months")) ?st)
    with (Re.re_run true (Re.Grp (Re.Cat (Re.Plus Re.Digit) Re.Eps)) st
          ≫= Re.re_run true (lit " months")).
  change (Re.re_run true (Re.Grp (Re.Cat (Re.Plus Re.Digit) Re.Eps))
            (None, String x d +:+ " months" +:+ rest))
    with ((fun st' : Re.state =>
             (Some (Re.consumed (String x d +:+ " months" +:+ rest) st'.2), st'.2))
          <$> ((pair None <$> Re.plus_cls Re.Digit (String x d +:+ " months" +:+ rest))
               ≫= fun st' => [st'])).
  rewrite str_app_cons. unfold Re.plus_cls.
  change (Re.cls_mem Re.Digit x) with (Char.is_digit x). rewrite Hx, Hl.
  rewrite fmap_cons, bind_cons. simpl app. rewrite fmap_cons, bind_cons.
  cbn [snd]. rewrite re_run_lit.
  change (prefix_ci true " months" (" months" +:+ rest)) with true.
  rewrite drop_app_length.
  assert (Re.consumed (String x (d +:+ " months" +:+ rest)) (" months" +:+ rest)
          = String x d) as ->.
  { unfold Re.consumed. rewrite <- str_app_cons. apply take_app_length. }
  by eexists.
Qed.

Lemma match_at_head ic r pos pre rest cap l :
  Re.re_run ic r (None, pre +:+ rest) = (cap, rest) :: l →
  Re.match_at ic r pos (pre +:+ rest)
  = Some (Re.Match pos (pos + String.length pre) pre cap).
Proof.
  intros H. unfold Re.match_at. rewrite H. cbn [fst snd].
  rewrite take_app_length, str_app_length.
  by replace (String.length pre + String.length rest - String.length rest)
    with (String.length pre) by lia.
Qed.

Lemma completion_in_at d pos rest :
  numeral d →
  Re.match_at true completion_re pos (completion_in d +:+ rest)
  = Some (Re.Match pos (pos + String.length (completion_in d))
                   (completion_in d) (Some d)).
Proof.
  intros Hd. destruct (duration_run d rest Hd) as [l Hl].
  apply (match_at_head _ _ _ _ _ _ l).
  unfold completion_re, completion_in. rewrite re_run_lits, !str_app_assoc.
  by rewrite prefix_ci_app, drop_app_length.
Qed.

Lemma phases_spanning_at d pos rest :
  numeral d →
  Re.match_at true phases_re pos (phases_spanning d +:+ rest)
  = Some (Re.Match pos (pos + String.length (phases_spanning d))
                   (phases_spanning d) (Some d)).
Proof.
  intros Hd. destruct (duration_run d rest Hd) as [l Hl].
  apply (match_at_head _ _ _ _ _ _
           (l ++ Re.re_run true
                   (foldr Re.Cat (Re.Cat duration_group (lit " months"))
                          (Re.Chr <$> list_ascii_of_string " spanning "))
                   (None, "s spanning " +:+ d +:+ " months" +:+ rest))).
  unfold phases_re, phases_spanning. rewrite re_run_lits, !str_app_assoc.
  change ("phases spanning " +:+ d +:+ " months" +:+ rest)
    with ("phase" +:+ "s spanning " +:+ d +:+ " months" +:+ rest).
  rewrite prefix_ci_app, drop_app_length.
  change (Re.re_run true (Re.Cat (Re.Opt (Re.Chr "s")) ?R)
            (None, "s spanning " +:+ d +:+ " months" +:+ rest))
    with (Re.re_run true R (None, " spanning " +:+ d +:+ " months" +:+ rest) ++ []
          ++ Re.re_run true R (None, "s spanning " +:+ d +:+ " months" +:+ rest) ++ []).
  rewrite !app_nil_r. simpl app.
  rewrite (re_run_lits true " spanning " _ None (" spanning " +:+ _)).
  by rewrite prefix_ci_app, drop_app_length, Hl.
Qed.

(** *** No match further left *)

Lemma len_completion_in d :
  String.length (completion_in d) = 14 + String.length d + 7.
Proof. unfold completion_in. rewrite !str_app_length. simpl. lia. Qed.

Lemma len_phases_spanning d :
  String.length (phases_spanning d) = 16 + String.length d + 7.
Proof. unfold phases_spanning. rewrite !str_app_length. simpl. lia. Qed.

Lemma no_completion_before_first a b c d1 d2 pre1 u1 :
  no_digit a → no_digit b → no_digit c →
  a +:+ completion_in d1 +:+ b +:+ phases_spanning d2 +:+ c = pre1 +:+ u1 →
  String.length pre1 < String.length a →
  Re.re_run true completion_re (None, u1) = [].
Proof.
  intros Ha Hb Hc E Hlt.
  destruct (Re.re_run true completion_re (None, u1)) eqn:R; [done|exfalso].
  assert (Re.re_run true completion_re (None, u1) ≠ []) as [_ Kd]%completion_needs
    by (by rewrite R).
  rewrite <- (digit_at_app_r pre1), <- E in Kd.
  apply shape_digits in Kd as [(k & Hk & Kd)|(k & Hk & Kd)]; [| |done..];
    apply phrase_digits in Kd as [Kd _]; try done; simpl in Kd; lia.
Qed.

Lemma no_phases_before_first a b c d1 d2 pre1 u1 :
  no_digit a → no_digit b → no_digit c →
  a +:+ phases_spanning d2 +:+ b +:+ completion_in d1 +:+ c = pre1 +:+ u1 →
  String.length pre1 < String.length a →
  Re.re_run true phases_re (None, u1) = [].
Proof.
  intros Ha Hb Hc E Hlt.
  destruct (Re.re_run true phases_re (None, u1)) eqn:R; [done|exfalso].
  assert (Re.re_run true phases_re (None, u1) ≠ [])
    as (_ & _ & _ & [Kd|Kd])%phases_needs by (by rewrite R);
    rewrite <- (digit_at_app_r pre1), <- E in Kd;
    (apply shape_digits in Kd as [(k & Hk & Kd)|(k & Hk & Kd)]; [| |done..]);
    apply phrase_digits in Kd as [Kd _]; try done; simpl in Kd;
    rewrite ?len_phases_spanning in Hk; lia.
Qed.

(** A letter the pattern asks for at offset [j] of the match would lie in
    the head or in the figure of the first phrase, which do not hold it. *)
Lemma letter_in_phrase p w d t a rest n :
  absent p w → absent p d →
  String.length a <= n → n < String.length a + String.length w + String.length d →
  ci_at n p (a +:+ (w +:+ d +:+ t) +:+ rest) = false.
Proof.
  intros Hw Hd H1 H2.
  replace n with (String.length a + (n - String.length a)) by lia.
  rewrite ci_at_app_r.
  assert ((w +:+ d +:+ t) +:+ rest = (w +:+ d) +:+ t +:+ rest) as ->
    by by rewrite !str_app_assoc.
  unfold ci_at. rewrite get_app_l by (rewrite str_app_length; lia).
  apply (ci_at_absent p (w +:+ d)). by apply absent_app.
Qed.

Lemma no_phases_before_second a b c d1 d2 pre1 u1 :
  no_digit a → no_digit b → no_digit c →
  Str.forallb Char.is_digit d1 = true →
  (a +:+ completion_in d1 +:+ b) +:+ phases_spanning d2 +:+ c = pre1 +:+ u1 →
  String.length pre1 < String.length (a +:+ completion_in d1 +:+ b) →
  Re.re_run true phases_re (None, u1) = [].
Proof.
  intros Ha Hb Hc Hd1 E Hlt. rewrite <- regroup in E.
  rewrite !str_app_length, ?len_completion_in in Hlt.
  destruct (Re.re_run true phases_re (None, u1)) eqn:R; [done|exfalso].
  assert (Re.re_run true phases_re (None, u1) ≠ [])
    as (_ & _ & Kc & Kd)%phases_needs by (by rewrite R).
  rewrite <- (ci_at_app_r pre1), <- E in Kc.
  assert (String.length a <= String.length pre1 + 2
          ∧ String.length pre1 + 2 < String.length a + 14 + String.length d1) as [K1 K2].
  { destruct Kd as [Kd|Kd];
      rewrite <- (digit_at_app_r pre1), <- E in Kd;
      (apply shape_digits in Kd as [(k & Hk & Kd)|(k & Hk & Kd)]; [| |done..]);
      apply phrase_digits in Kd as [Kd Kd']; try done; simpl in Kd, Kd';
      rewrite ?len_completion_in, ?len_phases_spanning in *; lia. }
  unfold completion_in in Kc.
  rewrite letter_in_phrase in Kc; [done| |by apply absent_digits|done|done].
  reflexivity.
Qed.

Lemma no_completion_before_second a b c d1 d2 pre1 u1 :
  no_digit a → no_digit b → no_digit c →
  Str.forallb Char.is_digit d2 = true →
  (a +:+ phases_spanning d2 +:+ b) +:+ completion_in d1 +:+ c = pre1 +:+ u1 →
  String.length pre1 < String.length (a +:+ phases_spanning d2 +:+ b) →
  Re.re_run true completion_re (None, u1) = [].
Proof.
  intros Ha Hb Hc Hd2 E Hlt. rewrite <- regroup in E.
  rewrite !str_app_length, ?len_phases_spanning in Hlt.
  destruct (Re.re_run true completion_re (None, u1)) eqn:R; [done|exfalso].
  assert (Re.re_run true completion_re (None, u1) ≠ []) as [Kc Kd]%completion_needs
    by (by rewrite R).
  rewrite <- (ci_at_app_r pre1), <- E in Kc.
  assert (String.length a <= String.length pre1 + 0
          ∧ String.length pre1 + 0 < String.length a + 16 + String.length d2) as [K1 K2].
  { rewrite <- (digit_at_app_r pre1), <- E in Kd.
    (apply shape_digits in Kd as [(k & Hk & Kd)|(k & Hk & Kd)]; [| |done..]);
      apply phrase_digits in Kd as [Kd Kd']; try done; simpl in Kd, Kd';
      rewrite ?len_completion_in, ?len_phases_spanning in *; lia. }
  unfold phases_spanning in Kc.
  rewrite letter_in_phrase in Kc; [done| |by apply absent_digits|done|done].
  reflexivity.
Qed.

(** *** The issues of the pair *)

Lemma contradiction_issue_patterns (pattern1 pattern2 : string) m1 m2 :
  contradiction_issue pattern1 pattern2 m1 m2 !! "patterns"
  = Some (VList [pattern1; pattern2]).
Proof.
  unfold contradiction_issue. rewrite lookup_insert_ne by done.
  by rewrite lookup_insert_eq.
Qed.

Lemma check_pair_patterns text (pattern1 pattern2 : string) (i : issue) :
  i ∈ check_pair text (pattern1, pattern2) →
  i !! "patterns" = Some (VList [pattern1; pattern2]).
Proof.
  unfold check_pair.
  destruct (Re.search true pattern1 text) as [m1|]; [|by intros ?%elem_of_nil].
  destruct (Re.search true pattern2 text) as [m2|]; [|by intros ?%elem_of_nil].
  destruct (bool_decide _); [|by intros ?%elem_of_nil].
  intros ->%list_elem_of_singleton. apply contradiction_issue_patterns.
Qed.

Lemma duration_hits text m1 m2 :
  Re.re_search true completion_re text = Some m1 →
  Re.re_search true phases_re text = Some m2 →
  filter (fun i : issue =>
            i !! "patterns" = Some (VList [completion_pattern; phases_pattern]))
         (check_contradictions text)
  = if decide (Re.group1 m1 = Re.group1 m2) then []
    else [contradiction_issue completion_pattern phases_pattern m1 m2].
Proof.
  intros H1 H2. rewrite check_contradictions_pairs.
  unfold CONTRADICTION_PATTERNS. rewrite !fmap_cons, fmap_nil.
  rewrite (check_pair_durations _ _ _ H1 H2).
  remember (check_pair text ("start date:? (\w+ \d{4})",
                             "completion date:? (\w+ \d{4})")) as dates eqn:Ed.
  simpl mjoin. rewrite app_nil_r, filter_app.
  assert (∀ l : list issue,
            (∀ i, i ∈ l → i !! "patterns"
                          = Some (VList ["start date:? (\w+ \d{4})";
                                         "completion date:? (\w+ \d{4})"])) →
            filter (fun i : issue =>
                      i !! "patterns" = Some (VList [completion_pattern; phases_pattern]))
                   l = []) as Hnone.
  { induction l as [|i l IH]; intros Hl; [done|].
    rewrite filter_cons, decide_False.
    - apply IH. intros j Hj. apply Hl. by apply elem_of_cons; right.
    - rewrite (Hl i) by (by apply elem_of_cons; left). discriminate. }
  rewrite (Hnone dates) by (intros i; rewrite Ed; apply check_pair_patterns).
  rewrite app_nil_r.
  destruct (decide (Re.group1 m1 = Re.group1 m2)) as [E|E].
  - by rewrite bool_decide_eq_false_2 by (by intros ?).
  - rewrite bool_decide_eq_true_2 by done.
    by rewrite filter_cons, decide_True by apply contradiction_issue_patterns.
Qed.

End numerals.

(** X18.  The two durations are compared as texts, not as numbers.  For a
    text that holds "completion in N months" and "phases spanning M months",
    in either order, N and M being figures of any length and the text
    holding no other digit, [check_contradictions] reports the pair exactly
    when the two figures differ as texts, quoting the two phrases: so "06"
    against "6" is reported, though the durations are equal. *)
Theorem durations_compared_as_text (a b c d1 d2 : string) :
  no_digit a → no_digit b → no_digit c → numeral d1 → numeral d2 →
  let found text :=
    filter (fun i : issue =>
              i !! "patterns" = Some (VList [completion_pattern; phases_pattern]))
           (check_contradictions text) in
  let report xs ys :=
    if decide (d1 = d2) then []
    else [contradiction_issue completion_pattern phases_pattern
            (Re.Match xs (xs + String.length (completion_in d1))
                      (completion_in d1) (Some d1))
            (Re.Match ys (ys + String.length (phases_spanning d2))
                      (phases_spanning d2) (Some d2))] in
  found (a +:+ completion_in d1 +:+ b +:+ phases_spanning d2 +:+ c)
  = report (String.length a) (String.length (a +:+ completion_in d1 +:+ b))
  ∧ found (a +:+ phases_spanning d2 +:+ b +:+ completion_in d1 +:+ c)
    = report (String.length (a +:+ phases_spanning d2 +:+ b)) (String.length a).
Proof.
  intros Ha Hb Hc Hd1 Hd2 found report. unfold found, report. split.
  - rewrite (duration_hits _
               (Re.Match (String.length a)
                         (String.length a + String.length (completion_in d1))
                         (completion_in d1) (Some d1))
               (Re.Match (String.length (a +:+ completion_in d1 +:+ b))
                         (String.length (a +:+ completion_in d1 +:+ b)
                          + String.length (phases_spanning d2))
                         (phases_spanning d2) (Some d2))).
    + simpl Re.group1. destruct (decide (d1 = d2)) as [->|E].
      * by rewrite decide_True.
      * rewrite decide_False; [done|]. by intros [= ?].
    + unfold Re.re_search. apply search_from_first.
      * intros pre1 u1. by apply no_completion_before_first.
      * by apply completion_in_at.
    + unfold Re.re_search. rewrite regroup. apply search_from_first.
      * intros pre1 u1. apply no_phases_before_second; try done. apply Hd1.
      * by apply phases_spanning_at.
  - rewrite (duration_hits _
               (Re.Match (String.length (a +:+ phases_spanning d2 +:+ b))
                         (String.length (a +:+ phases_spanning d2 +:+ b)
                          + String.length (completion_in d1))
                         (completion_in d1) (Some d1))
               (Re.Match (String.length a)
                         (String.length a + String.length (phases_spanning d2))
                         (phases_spanning d2) (Some d2))).
    + simpl Re.group1. destruct (decide (d1 = d2)) as [->|E].
      * by rewrite decide_True.
      * rewrite decide_False; [done|]. by intros [= ?].
    + unfold Re.re_search. rewrite regroup. apply search_from_first.
      * intros pre1 u1. apply no_completion_before_second; try done. apply Hd2.
      * by apply completion_in_at.
    + unfold Re.re_search. apply search_from_first.
      * intros pre1 u1. by apply no_phases_before_first.
      * by apply phases_spanning_at.
Qed.

Lemma durations_compared_as_text_witness :
  filter (fun i : issue =>
            i !! "patterns" = Some (VList [completion_pattern; phases_pattern]))
         (check_contradictions
            ("Works: " +:+ completion_in "06" +:+ " with "
             +:+ phases_spanning "6" +:+ "."))
  = [contradiction_issue completion_pattern phases_pattern
       (Re.Match 7 30 "completion in 06 months" (Some "06"))
       (Re.Match 36 60 "phases spanning 6 months" (Some "6"))].
Proof.
  destruct (durations_compared_as_text "Works: " " with " "." "06" "6")
    as [H _];
    [reflexivity|reflexivity|reflexivity
    |split; [discriminate|reflexivity]|split; [discriminate|reflexivity]|].
  exact H.
Defined.
